(** * The Trace Writer of the tracing agent (src/src/config.ts, second part:
      class [TraceWriter]), embedded as an event-driven state machine.

    The writer is single-threaded JavaScript: synchronous calls made by the
    host ([initialize], [writeSpan], [stop]) interleave with callbacks that
    the runtime runs later (promise reactions, timers, immediates, the
    transport's response callback).  The embedding keeps every pending
    callback as a [Task] and lets the environment pick which one runs next and
    with which outcome; the bodies of the callbacks are the bodies in the
    source. *)

From Stdlib Require Import ZArith Lia.
From stdpp Require Import base option list gmap strings pretty.

Local Open Scope string_scope.
Local Open Scope list_scope.
Local Open Scope Z_scope.

(** ** Data model (src/trace.ts as used by the writer and its test) *)

Inductive SpanKind := SPAN_KIND_UNSPECIFIED | RPC_SERVER | RPC_CLIENT.

#[global] Instance SpanKind_eq_dec : EqDecision SpanKind.
Proof. solve_decision. Defined.

(** [LabelObject]: a plain JavaScript object with string keys and string
    values, kept as its own properties in insertion order (the order
    [JSON.stringify] prints them in). *)
Definition LabelObject := list (string * string).

Record Span := mkSpan {
  labels : LabelObject;
  startTime : string;
  endTime : string;
  kind : SpanKind;
  name : string;
  spanId : string
}.

Record Trace := mkTrace {
  projectId : string;
  traceId : string;
  spans : list Span
}.

(** Property read [o[k]] ([None] is [undefined]). *)
Fixpoint obj_get (k : string) (o : LabelObject) : option string :=
  match o with
  | [] => None
  | (k', v) :: o' => if decide (k' = k) then Some v else obj_get k o'
  end.

(** Property write [o[k] = v]: an existing property keeps its place, a new one
    goes last. *)
Fixpoint obj_set (k v : string) (o : LabelObject) : LabelObject :=
  match o with
  | [] => [(k, v)]
  | (k', v') :: o' =>
      if decide (k' = k) then (k, v) :: o' else (k', v') :: obj_set k v o'
  end.

Definition Object_keys (o : LabelObject) : list string := o.*1.

(** One round of the copy loop of [Object.assign]: read the source's value
    for the key and write it to the target. *)
Definition copy_key (source acc : LabelObject) (k : string) : LabelObject :=
  match obj_get k source with
  | Some v => obj_set k v acc
  | None => acc
  end.

(** [Object.assign(target, source)]: one round for each own key of the
    source, in order. *)
Definition Object_assign (target source : LabelObject) : LabelObject :=
  foldl (copy_key source) target (Object_keys source).

(** ** Configuration and the collaborators the writer is handed *)

Inductive number := Int (z : Z) | Infinity.

(** [n >= limit] for an array length [n]. *)
Definition length_ge (n : nat) (limit : number) : bool :=
  match limit with
  | Int z => bool_decide (z <= Z.of_nat n)
  | Infinity => false
  end.

Record ServiceContext := mkServiceContext {
  service : option string;
  version : option string;
  minorVersion : option string
}.

Record TraceWriterConfig := mkConfig {
  cfg_projectId : option string;
  onUncaughtException : string;
  bufferSize : number;
  flushDelaySeconds : Z;
  stackTraceLimit : Z;
  maximumLabelValueSize : Z;
  serviceContext : ServiceContext
}.

(** Names of the well-known labels (src/trace-labels.ts). *)
Record TraceLabelsT := mkTraceLabels {
  AGENT_DATA : string;
  GCE_HOSTNAME : string;
  GCE_INSTANCE_ID : string;
  GAE_MODULE_NAME : string;
  GAE_MODULE_VERSION : string;
  GAE_VERSION : string
}.

(** What the writer takes from its surroundings: the label names, the
    package descriptor, the local host name, the wall clock (the ISO string
    returned by the [n]-th [new Date().toISOString()]) and the runtime's
    [JSON.stringify] on traces. *)
Record Env := mkEnv {
  TraceLabels : TraceLabelsT;
  pjson_name : string;
  pjson_version : string;
  os_hostname : string;
  toISOString : nat -> string;
  JSON_stringify : Trace -> string
}.

Definition NO_PROJECT_ID_TOKEN : string := "{{projectId}}".

Definition onUncaughtExceptionValues : list string :=
  ["ignore"; "flush"; "flushAndExit"].

(** ** Run-time state *)

Definition loc := nat.

Record Error := mkError { err_text : string; err_code : string }.

Inductive Level := debug | info | warn | error.

#[global] Instance Level_eq_dec : EqDecision Level.
Proof. solve_decision. Defined.

(** Everything the writer does to the outside, in order: a call of the
    logger with its arguments (an array argument is listed by its elements),
    a call of [this.request] (the [headers] option is a module constant and
    is left out), a call of the callback given to the [init]-th call of
    [initialize], and [process.exit]. *)
Inductive Effect :=
| Log (lvl : Level) (args : list string)
| Request (method uri body : string)
| Callback (init : nat) (err : option Error)
| Exit (status : Z).

(** The promise returned by [getProjectId]: already resolved with the known
    id, or a lookup by the base service that the environment settles. *)
Inductive ProjectIdPromise := Resolved (pid : string) | Lookup.

(** The handler pairs attached to it: the one of [initialize] (for its
    [init]-th call) and the one of [queueTrace] (for the trace object [t]). *)
Inductive Reaction := OnInitialize (init : nat) | OnQueueTrace (t : loc).

(** The callbacks that are waiting to run: a reaction on a [getProjectId]
    promise, the two metadata queries of [initialize] (the second starts when
    the first has answered), the timer and the immediate that flush, the
    answer of the transport to a request, and the exit timer of the
    [flushAndExit] policy. *)
Inductive Task :=
| Then (p : ProjectIdPromise) (r : Reaction)
| GetHostname (init : nat)
| GetInstanceId (init : nat) (hostname : string)
| Timeout (ms : Z)
| Immediate
| Response
| ExitTimeout (ms : Z).

(** The writer object ([buffer], [defaultLabels], [isActive] and the
    [projectId] it inherits from the base service), the trace objects of the
    host it may be handed (a trace object owns its spans and their label
    objects), the pending callbacks, the [pendingOperations] counter of each
    call of [initialize], the number of clock readings so far, and the
    effects so far. *)
Record World := mkWorld {
  buffer : list string;
  defaultLabels : LabelObject;
  isActive : bool;
  this_projectId : string;
  heap : gmap loc Trace;
  tasks : list Task;
  pendingOperations : list Z;
  ticks : nat;
  effects : list Effect
}.

Definition set_buffer (b : list string) (w : World) : World :=
  mkWorld b (defaultLabels w) (isActive w) (this_projectId w) (heap w)
          (tasks w) (pendingOperations w) (ticks w) (effects w).
Definition set_defaultLabels (d : LabelObject) (w : World) : World :=
  mkWorld (buffer w) d (isActive w) (this_projectId w) (heap w)
          (tasks w) (pendingOperations w) (ticks w) (effects w).
Definition set_isActive (a : bool) (w : World) : World :=
  mkWorld (buffer w) (defaultLabels w) a (this_projectId w) (heap w)
          (tasks w) (pendingOperations w) (ticks w) (effects w).
Definition set_this_projectId (p : string) (w : World) : World :=
  mkWorld (buffer w) (defaultLabels w) (isActive w) p (heap w)
          (tasks w) (pendingOperations w) (ticks w) (effects w).
Definition set_heap (h : gmap loc Trace) (w : World) : World :=
  mkWorld (buffer w) (defaultLabels w) (isActive w) (this_projectId w) h
          (tasks w) (pendingOperations w) (ticks w) (effects w).
Definition set_tasks (ts : list Task) (w : World) : World :=
  mkWorld (buffer w) (defaultLabels w) (isActive w) (this_projectId w) (heap w)
          ts (pendingOperations w) (ticks w) (effects w).
Definition set_pendingOperations (ps : list Z) (w : World) : World :=
  mkWorld (buffer w) (defaultLabels w) (isActive w) (this_projectId w) (heap w)
          (tasks w) ps (ticks w) (effects w).
Definition set_ticks (n : nat) (w : World) : World :=
  mkWorld (buffer w) (defaultLabels w) (isActive w) (this_projectId w) (heap w)
          (tasks w) (pendingOperations w) n (effects w).
Definition set_effects (es : list Effect) (w : World) : World :=
  mkWorld (buffer w) (defaultLabels w) (isActive w) (this_projectId w) (heap w)
          (tasks w) (pendingOperations w) (ticks w) es.

Definition emit (e : Effect) (w : World) : World :=
  set_effects (effects w ++ [e]) w.
Definition logger (lvl : Level) (args : list string) (w : World) : World :=
  emit (Log lvl args) w.
Definition spawn (t : Task) (w : World) : World :=
  set_tasks (tasks w ++ [t]) w.

(** The double-quote character and [Array.prototype.join()] (separator [,]). *)
Definition dquote : string := String (Ascii.ascii_of_nat 34) EmptyString.

Fixpoint join (l : list string) : string :=
  match l with
  | [] => EmptyString
  | [s] => s
  | s :: l' => s +:+ "," +:+ join l'
  end.

(** JavaScript truthiness of an optional string, and [a || b]. *)
Definition truthy (o : option string) : option string :=
  match o with
  | Some s => if decide (s = EmptyString) then None else Some s
  | None => None
  end.

Definition set_endTime (e : string) (s : Span) : Span :=
  mkSpan (labels s) (startTime s) e (kind s) (name s) (spanId s).
Definition set_labels (l : LabelObject) (s : Span) : Span :=
  mkSpan l (startTime s) (endTime s) (kind s) (name s) (spanId s).
Definition set_spans (ss : list Span) (t : Trace) : Trace :=
  mkTrace (projectId t) (traceId t) ss.
Definition set_projectId (p : string) (t : Trace) : Trace :=
  mkTrace p (traceId t) (spans t).

(** ** The methods of [TraceWriter] *)

Section TraceWriter.
Variable env : Env.
Variable config : TraceWriterConfig.

(** The state the constructor leaves: [super(...)] (the base service of
    the common library) sets [projectId] to the configured id or to the
    placeholder token; then [buffer = []], [defaultLabels = {}],
    [isActive = true]. *)
Definition fresh (h : gmap loc Trace) : World :=
  mkWorld [] [] true
          (default NO_PROJECT_ID_TOKEN (truthy (cfg_projectId config)))
          h [] [] 0%nat [].

(** [new TraceWriter(config, logger)]: an unknown [onUncaughtException]
    value is logged and thrown. *)
Definition constructor (h : gmap loc Trace) : (Effect * string) + World :=
  if decide (onUncaughtException config ∈ onUncaughtExceptionValues)
  then inr (fresh h)
  else inl (Log error
              ["TraceWriter#constructor: The value of config.onUncaughtException ["
               +:+ onUncaughtException config +:+ "] should be one of ["
               +:+ "ignore, flush, flushAndExit" +:+ "]."],
            "Invalid value for onUncaughtException configuration.").

Definition stop (w : World) : World := set_isActive false w.

Definition getProjectId (w : World) : ProjectIdPromise :=
  if decide (this_projectId w ≠ NO_PROJECT_ID_TOKEN)
  then Resolved (this_projectId w)
  else Lookup.

(** [publish(json)]: one info entry, one request; the response callback
    stays pending. *)
Definition publish (json : string) (w : World) : World :=
  let uri := "https://cloudtrace.googleapis.com/v1/projects/"
             +:+ this_projectId w +:+ "/traces" in
  let w := logger info ["TraceWriter#publish: Publishing to " +:+ uri] w in
  spawn Response (emit (Request "PATCH" uri json) w).

(** The callback [publish] hands to [request]. *)
Definition on_response (err : option Error) (response : option Z)
    (w : World) : World :=
  let statusCode :=
    match response with
    | Some c => if decide (c = 0) then "unknown" else pretty c
    | None => "unknown"
    end in
  match err with
  | Some e =>
      logger error ["TraceWriter#publish: Received error status code "
                    +:+ statusCode +:+ ". Original error: " +:+ err_text e] w
  | None =>
      logger info ["TraceWriter#publish: Published w/ status code: "
                   +:+ statusCode] w
  end.

Definition payload (entries : list string) : string :=
  "{" +:+ dquote +:+ "traces" +:+ dquote +:+ ":[" +:+ join entries +:+ "]}".

Definition flushBuffer (w : World) : World :=
  if decide (length (buffer w) = 0%nat) then w
  else
    let buffer' := buffer w in
    let w := set_buffer [] w in
    let w := logger debug
               ("TraceWriter#flushBuffer: Flushing traces" :: buffer') w in
    publish (payload buffer') w.

Definition scheduleFlush (w : World) : World :=
  let w := logger info
             ["TraceWriter#scheduleFlush: Performing periodic flush."] w in
  let w := flushBuffer w in
  if isActive w
  then spawn (Timeout (flushDelaySeconds config * 1000)) w
  else w.

(** The closure [afterProjectId] of [queueTrace], for the trace object at
    [t]. *)
Definition afterProjectId (t : loc) (pid : string) (w : World)
    : option World :=
  trace ← heap w !! t;
  let trace := set_projectId pid trace in
  let w := set_heap (<[t := trace]> (heap w)) w in
  let w := set_buffer (buffer w ++ [JSON_stringify env trace]) w in
  let w := logger info ["TraceWriter#queueTrace: buffer.size = "
                        +:+ pretty (length (buffer w))] w in
  Some (if length_ge (length (buffer w)) (bufferSize config)
        then spawn Immediate
               (logger info
                  ["TraceWriter#queueTrace: Trace buffer full, flushing."] w)
        else w).

Definition queueTrace (t : loc) (w : World) : option World :=
  if decide (this_projectId w ≠ NO_PROJECT_ID_TOKEN)
  then afterProjectId t (this_projectId w) w
  else Some (spawn (Then (getProjectId w) (OnQueueTrace t)) w).

(** First loop of [writeSpan]: each span whose [endTime] is the empty string
    gets the next clock reading. *)
Fixpoint close_spans (n : nat) (ss : list Span) : list Span * nat :=
  match ss with
  | [] => ([], n)
  | span :: ss' =>
      if decide (endTime span = EmptyString)
      then let '(r, n') := close_spans (S n) ss' in
           (set_endTime (toISOString env n) span :: r, n')
      else let '(r, n') := close_spans n ss' in (span :: r, n')
  end.

(** Body of the [forEach] of [writeSpan]. *)
Definition copy_defaults (d : LabelObject) (spanData : Span) : Span :=
  if decide (kind spanData = RPC_SERVER)
  then set_labels (Object_assign (labels spanData) d) spanData
  else spanData.

Definition writeSpan (t : loc) (w : World) : option World :=
  trace ← heap w !! t;
  let '(closed, n) := close_spans (ticks w) (spans trace) in
  let merged := map (copy_defaults (defaultLabels w)) closed in
  queueTrace t
    (set_heap (<[t := set_spans merged trace]> (heap w)) (set_ticks n w)).

(** [if (--pendingOperations === 0) cb()] for the [i]-th call of
    [initialize]. *)
Definition countdown (i : nat) (w : World) : option World :=
  p ← pendingOperations w !! i;
  let w := set_pendingOperations (<[i := p - 1]> (pendingOperations w)) w in
  Some (if decide (p - 1 = 0) then emit (Callback i None) w else w).

Definition initialize (w : World) : World :=
  let i := length (pendingOperations w) in
  let w := set_pendingOperations (pendingOperations w ++ [2]) w in
  let w := spawn (Then (getProjectId w) (OnInitialize i)) w in
  spawn (GetHostname i) w.

Definition addDefaultLabel (key value : string) (w : World) : World :=
  set_defaultLabels (obj_set key value (defaultLabels w)) w.

(** Body of the callback given to [getInstanceId] in [initialize], up to
    [Object.freeze]. *)
Definition buildDefaultLabels (hostname : string)
    (instanceId : option string) (w : World) : World :=
  let L := TraceLabels env in
  let w := set_defaultLabels [] w in
  let w := addDefaultLabel (AGENT_DATA L)
             ("node " +:+ pjson_name env +:+ " v" +:+ pjson_version env) w in
  let w := addDefaultLabel (GCE_HOSTNAME L) hostname w in
  let w := match truthy instanceId with
           | Some id => addDefaultLabel (GCE_INSTANCE_ID L) id w
           | None => w
           end in
  let moduleName :=
    default hostname (truthy (service (serviceContext config))) in
  let w := addDefaultLabel (GAE_MODULE_NAME L) moduleName w in
  match truthy (version (serviceContext config)) with
  | Some moduleVersion =>
      let w := addDefaultLabel (GAE_MODULE_VERSION L) moduleVersion w in
      match truthy (minorVersion (serviceContext config)) with
      | Some minor =>
          let versionLabel :=
            (if decide (moduleName ≠ "default")
             then moduleName +:+ ":" else EmptyString)
            +:+ moduleVersion +:+ "." +:+ minor in
          addDefaultLabel (GAE_VERSION L) versionLabel w
      | None => w
      end
  | None => w
  end.

(** The handler installed for [uncaughtException] (only when the policy is
    not [ignore]). *)
Definition unhandledException (w : World) : World :=
  let w := flushBuffer w in
  if decide (onUncaughtException config = "flushAndExit")
  then spawn (ExitTimeout 2000) w
  else w.

(** ** The event loop *)

(** How a pending task completes: a promise or metadata query is fulfilled
    with a value (an instance id is given by its rendering as a string, the
    empty string standing for a falsy one) or rejected with an error, a timer
    or immediate comes due, the transport calls back with an optional error
    and an optional status code (0 standing for a falsy one). *)
Inductive Outcome :=
| Fulfilled (data : string)
| Rejected (err : Error)
| Elapsed
| Responded (err : option Error) (statusCode : option Z).

(** The two handlers [initialize] gives to [getProjectId().then]. *)
Definition initialize_fulfilled (i : nat) (w : World) : option World :=
  countdown i (scheduleFlush w).

Definition initialize_rejected (i : nat) (err : Error) (w : World) : World :=
  let w := logger error
    ["TraceWriter#initialize: Unable to acquire the project number";
     "automatically from the GCP metadata service. Please provide a";
     "valid project ID as environmental variable GCLOUD_PROJECT, or as";
     "config.projectId passed to start. Original error: " +:+ err_text err]
    w in
  emit (Callback i (Some err)) w.

(** The rejection handler [queueTrace] gives to [getProjectId().then]. *)
Definition queueTrace_rejected (w : World) : World :=
  logger info ["TraceWriter#queueTrace: No project ID, dropping trace."] w.

Definition fulfil (r : Reaction) (pid : string) (w : World) : option World :=
  match r with
  | OnInitialize i => initialize_fulfilled i w
  | OnQueueTrace t => afterProjectId t pid w
  end.

Definition reject (r : Reaction) (err : Error) (w : World) : World :=
  match r with
  | OnInitialize i => initialize_rejected i err w
  | OnQueueTrace _ => queueTrace_rejected w
  end.

(** The [catch] branches of [getHostname] and [getInstanceId]. *)
Definition metadata_warning (what : string) (err : Error) (w : World)
    : World :=
  if decide (err_code err ≠ "ENOTFOUND")
  then logger warn
         ["TraceWriter#" +:+ what;
          "from the GCP metadata service. Original error: "
          +:+ err_text err] w
  else w.

Definition labels_ready (i : nat) (hostname : string)
    (instanceId : option string) (w : World) : option World :=
  countdown i (buildDefaultLabels hostname instanceId w).

(** Running a pending task. A promise that was resolved at creation is
    fulfilled with its value; a lookup by the base service is fulfilled with
    the id the environment gives, which the base service first stores in
    [projectId], or rejected; [None] when the outcome is not one the task can
    have. *)
Definition run_task (task : Task) (o : Outcome) (w : World) : option World :=
  match task, o with
  | Then (Resolved pid) r, Fulfilled pid' =>
      if decide (pid = pid') then fulfil r pid w else None
  | Then Lookup r, Fulfilled pid => fulfil r pid (set_this_projectId pid w)
  | Then Lookup r, Rejected err => Some (reject r err w)
  | GetHostname i, Fulfilled hostname =>
      Some (spawn (GetInstanceId i hostname) w)
  | GetHostname i, Rejected err =>
      Some (spawn (GetInstanceId i (os_hostname env))
              (metadata_warning
                 "getHostname: Unable to retrieve GCE hostname" err w))
  | GetInstanceId i hostname, Fulfilled instanceId =>
      labels_ready i hostname (Some instanceId) w
  | GetInstanceId i hostname, Rejected err =>
      labels_ready i hostname None
        (metadata_warning
           "getInstanceId: Unable to retrieve GCE instance ID" err w)
  | Timeout _, Elapsed => Some (scheduleFlush w)
  | Immediate, Elapsed => Some (flushBuffer w)
  | Response, Responded err statusCode =>
      Some (on_response err statusCode w)
  | ExitTimeout _, Elapsed => Some (emit (Exit 1) w)
  | _, _ => None
  end.

(** What can happen next: a call by the host, a write by the host to one of
    its trace objects, an uncaught exception, or the [n]-th pending task
    completing with an outcome. *)
Inductive Event :=
| CallInitialize
| CallWriteSpan (t : loc)
| CallStop
| Assign (t : loc) (v : Trace)
| UncaughtException
| Run (n : nat) (o : Outcome).

(** One turn of the event loop ([None]: a trace object or a pending task
    that does not exist). The task that runs leaves the pending ones. *)
Definition step (e : Event) (w : World) : option World :=
  match e with
  | CallInitialize => Some (initialize w)
  | CallWriteSpan t => writeSpan t w
  | CallStop => Some (stop w)
  | Assign t v => Some (set_heap (<[t := v]> (heap w)) w)
  | UncaughtException =>
      Some (if decide (onUncaughtException config ≠ "ignore")
            then unhandledException w else w)
  | Run n o =>
      task ← tasks w !! n;
      run_task task o (set_tasks (delete n (tasks w)) w)
  end.

Fixpoint exec (es : list Event) (w : World) : option World :=
  match es with
  | [] => Some w
  | e :: es' => w' ← step e w; exec es' w'
  end.

End TraceWriter.

(** ** A concrete environment, for running the model

    [stringify] prints a trace the way the runtime's [JSON.stringify] prints
    an object built like [createDummyTrace] of the test (properties in that
    order; label keys are not array indices). *)
Module Sample.

Definition hex_digit (n : nat) : string :=
  String (Ascii.ascii_of_nat (if decide (n < 10)%nat then 48 + n else 87 + n))
         EmptyString.

Definition escape_char (c : Ascii.ascii) : string :=
  let n := Ascii.nat_of_ascii c in
  let bs := String (Ascii.ascii_of_nat 92) EmptyString in
  if decide (n = 34%nat) then bs +:+ dquote
  else if decide (n = 92%nat) then bs +:+ bs
  else if decide (n = 8%nat) then bs +:+ "b"
  else if decide (n = 9%nat) then bs +:+ "t"
  else if decide (n = 10%nat) then bs +:+ "n"
  else if decide (n = 12%nat) then bs +:+ "f"
  else if decide (n = 13%nat) then bs +:+ "r"
  else if decide (n < 32)%nat
       then bs +:+ "u00" +:+ hex_digit (n / 16) +:+ hex_digit (n mod 16)
       else String c EmptyString.

Fixpoint escape (s : string) : string :=
  match s with
  | EmptyString => EmptyString
  | String c s' => escape_char c +:+ escape s'
  end.

Definition quoted (s : string) : string := dquote +:+ escape s +:+ dquote.

Definition member (k v : string) : string := quoted k +:+ ":" +:+ v.

Definition stringify_labels (o : LabelObject) : string :=
  "{" +:+ join (map (fun kv => member kv.1 (quoted kv.2)) o) +:+ "}".

Definition stringify_kind (k : SpanKind) : string :=
  match k with
  | SPAN_KIND_UNSPECIFIED => "SPAN_KIND_UNSPECIFIED"
  | RPC_SERVER => "RPC_SERVER"
  | RPC_CLIENT => "RPC_CLIENT"
  end.

Definition stringify_span (s : Span) : string :=
  "{" +:+ join [member "labels" (stringify_labels (labels s));
                member "startTime" (quoted (startTime s));
                member "endTime" (quoted (endTime s));
                member "kind" (quoted (stringify_kind (kind s)));
                member "name" (quoted (name s));
                member "spanId" (quoted (spanId s))] +:+ "}".

Definition stringify (t : Trace) : string :=
  "{" +:+ join [member "projectId" (quoted (projectId t));
                member "traceId" (quoted (traceId t));
                member "spans"
                  ("[" +:+ join (map stringify_span (spans t)) +:+ "]")]
      +:+ "}".

Definition trace_labels : TraceLabelsT :=
  mkTraceLabels "/agent" "g.co/gce/hostname" "g.co/gce/instanceid"
                "g.co/gae/app/module" "g.co/gae/app/module_version"
                "g.co/gae/app/version".

Definition clock (n : nat) : string :=
  "2018-01-01T00:00:00." +:+ pretty (100 + n mod 900)%nat +:+ "Z".

Definition env : Env :=
  mkEnv trace_labels "@google-cloud/trace-agent" "2.8.1" "localhost"
        clock stringify.

(** [DEFAULT_CONFIG] of the test, with the buffer size and flush delay of
    the case at hand. *)
Definition config (size : number) (delay : Z) : TraceWriterConfig :=
  mkConfig None "ignore" size delay 10 65536
           (mkServiceContext None None None).

(** [createDummyTrace()] of the test. *)
Definition createDummyTrace : Trace :=
  mkTrace EmptyString EmptyString
          [mkSpan [] EmptyString EmptyString RPC_SERVER
                  EmptyString EmptyString].

Definition not_found : Error := mkError "Error: 404" "ENOTFOUND".
Definition failure : Error := mkError "Error" EmptyString.

(** [initialize] of a writer built without a project id, the lookup
    answering [pid] and no metadata server: identity first, then the two
    metadata queries. *)
Definition initialized (pid : string) : list Event :=
  [CallInitialize; Run 0 (Fulfilled pid);
   Run 0 (Rejected not_found); Run 1 (Rejected not_found)].

End Sample.

(** ** Observations on the effects *)

(** Bodies of the requests made so far, oldest first. *)
Definition requests (es : list Effect) : list string :=
  omap (fun e => match e with Request _ _ body => Some body | _ => None end) es.

#[global] Instance Error_eq_dec : EqDecision Error.
Proof. solve_decision. Defined.
#[global] Instance Effect_eq_dec : EqDecision Effect.
Proof. solve_decision. Defined.
#[global] Instance ProjectIdPromise_eq_dec : EqDecision ProjectIdPromise.
Proof. solve_decision. Defined.
#[global] Instance Reaction_eq_dec : EqDecision Reaction.
Proof. solve_decision. Defined.
#[global] Instance Task_eq_dec : EqDecision Task.
Proof. solve_decision. Defined.

(** How many times an effect (or anything else) occurs in a list. *)
Definition occurrences {A} `{EqDecision A} (x : A) (l : list A) : nat :=
  length (filter (fun y => y = x) l).

(** A span is closed when its [endTime] is not the empty string. *)
Definition closed_span (s : Span) : Prop := endTime s ≠ EmptyString.
Definition closed (tr : Trace) : Prop := Forall closed_span (spans tr).

(** What the two loops of [writeSpan] leave in the trace object. *)
Definition prepared (env : Env) (w : World) (tr : Trace) : Trace :=
  set_spans (map (copy_defaults (defaultLabels w))
                 (close_spans env (ticks w) (spans tr)).1) tr.

(** [s1] is [s] after the first loop, with clock readings [n..n'). *)
Definition stamped (env : Env) (n n' : nat) (s s1 : Span) : Prop :=
  labels s1 = labels s ∧ startTime s1 = startTime s ∧ kind s1 = kind s ∧
  name s1 = name s ∧ spanId s1 = spanId s ∧
  if decide (endTime s = EmptyString)
  then ∃ m, (n ≤ m < n')%nat ∧ endTime s1 = toISOString env m
  else endTime s1 = endTime s.

(** The timers that will run [scheduleFlush]. *)
Definition is_Timeout (task : Task) : Prop :=
  match task with Timeout _ => True | _ => False end.

#[global] Instance is_Timeout_dec task : Decision (is_Timeout task).
Proof. destruct task; simpl; apply _. Defined.

Definition pending_timers (ts : list Task) : nat :=
  length (filter is_Timeout ts).

(** The entry logged when a trace is dropped for want of a project id. *)
Definition drop_notice : Effect :=
  Log info ["TraceWriter#queueTrace: No project ID, dropping trace."].

(** [Run n (Rejected _)] at [w] rejects the lookup a written trace waits
    for. *)
Definition drops_trace (n : nat) (w : World) : bool :=
  match tasks w !! n with
  | Some (Then Lookup (OnQueueTrace _)) => true
  | _ => false
  end.

(** [Run n Elapsed] at [w] fires a timer. *)
Definition fires_timer (n : nat) (w : World) : bool :=
  match tasks w !! n with
  | Some (Timeout _) => true
  | _ => false
  end.

(** The enqueue of the trace object [t] is waiting for a project id. *)
Definition deferred (t : loc) (w : World) : Prop :=
  ∃ p, Then p (OnQueueTrace t) ∈ tasks w.

Section Runs.
Variable env : Env.
Variable config : TraceWriterConfig.

(** How many traces the run of [es] from [w] drops. *)
Fixpoint dropped (es : list Event) (w : World) : nat :=
  match es with
  | [] => 0%nat
  | e :: es' =>
      ((match e with
        | Run n (Rejected _) => if drops_trace n w then 1 else 0
        | _ => 0
        end)
       + match step env config e w with
         | Some w' => dropped es' w'
         | None => 0
         end)%nat
  end.

(** How many timers fire in the run of [es] from [w]. *)
Fixpoint fired_timers (es : list Event) (w : World) : nat :=
  match es with
  | [] => 0%nat
  | e :: es' =>
      ((match e with
        | Run n Elapsed => if fires_timer n w then 1 else 0
        | _ => 0
        end)
       + match step env config e w with
         | Some w' => fired_timers es' w'
         | None => 0
         end)%nat
  end.

(** No project id lookup is ever answered: every [Run] of a pending lookup
    in the run of [es] from [w] is a rejection. *)
Fixpoint identity_unavailable (es : list Event) (w : World) : Prop :=
  match es with
  | [] => True
  | e :: es' =>
      (match e with
       | Run n (Fulfilled _) => ∀ r, tasks w !! n ≠ Some (Then Lookup r)
       | _ => True
       end)
      ∧ ∀ w', step env config e w = Some w' → identity_unavailable es' w'
  end.

(** The host leaves a trace object closed for as long as its enqueue is
    waiting. *)
Fixpoint undisturbed (es : list Event) (w : World) : Prop :=
  match es with
  | [] => True
  | e :: es' =>
      (match e with
       | Assign t v => deferred t w → closed v
       | _ => True
       end)
      ∧ ∀ w', step env config e w = Some w' → undisturbed es' w'
  end.

End Runs.

(** ** The claims as the specification words them, and sample runs *)

(** The claim as the specification words it: on a key both sides have, the
    caller's value survives. *)
Definition caller_labels_win (env : Env) (config : TraceWriterConfig)
    (w : World) (t : loc) : Prop :=
  ∀ tr w1 tr1 i sp sp1 k v,
    heap w !! t = Some tr →
    writeSpan env config t w = Some w1 →
    heap w1 !! t = Some tr1 →
    spans tr !! i = Some sp →
    spans tr1 !! i = Some sp1 →
    kind sp = RPC_SERVER →
    obj_get k (defaultLabels w) = Some v →
    obj_get k (labels sp1) = Some (default v (obj_get k (labels sp))).

Module C1_example.
Import Sample.

(** A server span on which the caller has set the agent label itself. *)
Definition trace : Trace :=
  mkTrace EmptyString "a1"
          [mkSpan [("/agent", "mine"); ("/http/method", "GET")]
                  "2018-01-01T00:00:00.000Z" EmptyString RPC_SERVER
                  "/" "1"].

Definition config := Sample.config Infinity 3600.

Definition start : World :=
  default (fresh config ∅)
          (exec env config (initialized "0") (fresh config {[ 0%nat := trace ]})).
End C1_example.

Module C1_example_run.
Import Sample C1_example.

Definition written : World :=
  default start (writeSpan env config 0%nat start).
Definition trace1 : Trace := default trace (heap written !! 0%nat).
Definition span0 : Span :=
  default (mkSpan [] EmptyString EmptyString RPC_SERVER EmptyString EmptyString)
          (spans trace !! 0%nat).
Definition span1 : Span := default span0 (spans trace1 !! 0%nat).
Definition agent : string :=
  default EmptyString (obj_get "/agent" (defaultLabels start)).
End C1_example_run.

Module C4_example.
(** A writer holding two entries, and one holding none. *)
Definition full : World :=
  mkWorld ["a"; "b"] [] true "0" ∅ [] [] 0%nat [].
Definition empty : World :=
  mkWorld [] [] true "0" ∅ [Timeout 1000] [] 0%nat [].
End C4_example.

Module C8_example.
(** A writer whose only pending task is the response to a publish. *)
Definition awaiting : World :=
  mkWorld ["c"] [] true "0" ∅ [Response] [] 0%nat [].
End C8_example.

(** C2 as the specification words it: once [stop] has been called, no run
    makes a request. *)
Definition no_flush_after_stop (env : Env) (config : TraceWriterConfig)
    (w : World) : Prop :=
  ∀ es w1 w2,
    step env config CallStop w = Some w1 →
    exec env config es w1 = Some w2 →
    requests (effects w2) = requests (effects w1).

Module C2_example.
Import Sample.

Definition config := Sample.config Infinity 3600.

(** An initialized writer holding one trace, its timer armed. *)
Definition start : World :=
  default (fresh config ∅)
          (exec env config (initialized "0" ++ [CallWriteSpan 0%nat])
                (fresh config {[ 0%nat := createDummyTrace ]})).

Definition stopped : World :=
  default start (step env config CallStop start).

(** The timer armed before [stop] fires. *)
Definition later : World :=
  default stopped (exec env config [Run 0 Elapsed] stopped).
End C2_example.

(** C7 as the specification words it: the run drops its traces with one
    notice in total. *)
Definition one_drop_notice_in_total (env : Env) (config : TraceWriterConfig)
    (w : World) (es : list Event) : Prop :=
  ∀ w', exec env config es w = Some w' →
        occurrences drop_notice (effects w') = 1%nat.

Module C7_example.
Import Sample.

Definition config := Sample.config Infinity 3600.

Definition start : World :=
  fresh config {[ 0%nat := createDummyTrace; 1%nat := createDummyTrace ]}.

(** Two traces are written while [initialize] is looking the project id up;
    that lookup fails, and so do the two the traces wait for. *)
Definition run : list Event :=
  [CallInitialize; CallWriteSpan 0%nat; CallWriteSpan 1%nat;
   Run 0 (Rejected failure); Run 1 (Rejected failure);
   Run 1 (Rejected failure)].

Definition final : World := default start (exec env config run start).
End C7_example.

(** C6 as the specification words it: in a run in which the callback of
    [initialize] has received an error, no trace has reached the buffer or a
    request. *)
Definition failed_identity_publishes_nothing (env : Env)
    (config : TraceWriterConfig) (h : gmap loc Trace) : Prop :=
  ∀ es w i err,
    exec env config es (fresh config h) = Some w →
    Callback i (Some err) ∈ effects w →
    buffer w = [] ∧ requests (effects w) = [].

(** No pending reaction is attached to an already resolved project id. *)
Definition awaits_lookup (task : Task) : Prop :=
  match task with
  | Then (Resolved _) _ => False
  | _ => True
  end.

(** The state of a writer that has no project id and has enqueued and
    published nothing. *)
Definition without_identity (w : World) : Prop :=
  this_projectId w = NO_PROJECT_ID_TOKEN ∧ buffer w = [] ∧
  requests (effects w) = [] ∧ Forall awaits_lookup (tasks w).

Module C6_example.
Import Sample.

Definition config := Sample.config (Int 1) 3600.

Definition heap0 : gmap loc Trace := {[ 0%nat := createDummyTrace ]}.

(** The lookup of [initialize] fails (as do the metadata queries); a trace
    written afterwards starts a lookup of its own, which is answered; the
    buffer is full at one entry and the immediate flush publishes it. *)
Definition run : list Event :=
  [CallInitialize; Run 0 (Rejected failure);
   Run 0 (Rejected not_found); Run 0 (Rejected not_found);
   CallWriteSpan 0%nat; Run 0 (Fulfilled "0"); Run 0 Elapsed].

Definition final : World :=
  default (fresh config heap0) (exec env config run (fresh config heap0)).

(** The same without the answer: the second lookup fails too. *)
Definition run_unavailable : list Event :=
  [CallInitialize; Run 0 (Rejected failure);
   Run 0 (Rejected not_found); Run 0 (Rejected not_found);
   CallWriteSpan 0%nat; Run 0 (Rejected failure)].

Definition final_unavailable : World :=
  default (fresh config heap0)
          (exec env config run_unavailable (fresh config heap0)).
End C6_example.

(** A buffer entry that is the serialization of a closed trace. *)
Definition closed_entry (env : Env) (entry : string) : Prop :=
  ∃ tr, closed tr ∧ entry = JSON_stringify env tr.

(** The trace object a pending enqueue will serialize is closed. *)
Definition waits_closed (h : gmap loc Trace) (task : Task) : Prop :=
  match task with
  | Then _ (OnQueueTrace t) => ∃ tr, h !! t = Some tr ∧ closed tr
  | _ => True
  end.

Definition buffer_closed (env : Env) (w : World) : Prop :=
  Forall (closed_entry env) (buffer w) ∧
  Forall (waits_closed (heap w)) (tasks w).

Definition is_Assign (e : Event) : Prop :=
  match e with Assign _ _ => True | _ => False end.

(** The trace a step serializes into the buffer, if it enqueues one: the
    written trace when the project id is known, the trace object as it then
    stands when a lookup that a written trace waits for is answered. *)
Definition enqueues (env : Env) (e : Event) (w : World) : option Trace :=
  match e with
  | CallWriteSpan t =>
      if decide (this_projectId w ≠ NO_PROJECT_ID_TOKEN)
      then set_projectId (this_projectId w) ∘ prepared env w <$> heap w !! t
      else None
  | Run n (Fulfilled pid) =>
      match tasks w !! n with
      | Some (Then _ (OnQueueTrace t)) => set_projectId pid <$> heap w !! t
      | _ => None
      end
  | _ => None
  end.

(** C5 as the specification words it: every trace that is serialized into
    the buffer in the run of [es] from [w] has all its spans closed. *)
Fixpoint enqueues_closed (env : Env) (config : TraceWriterConfig)
    (es : list Event) (w : World) : Prop :=
  match es with
  | [] => True
  | e :: es' =>
      (∀ tr, enqueues env e w = Some tr → closed tr)
      ∧ ∀ w', step env config e w = Some w' → enqueues_closed env config es' w'
  end.

Module C5_example.
Import Sample.

Definition config := Sample.config Infinity 3600.

Definition heap0 : gmap loc Trace := {[ 0%nat := createDummyTrace ]}.

Definition start : World := fresh config heap0.

(** One trace written before the project id is known, one after. *)
Definition run : list Event :=
  [CallInitialize; CallWriteSpan 0%nat; Run 0 (Fulfilled "0");
   Run 1 (Fulfilled "0"); CallWriteSpan 0%nat].

Definition final : World := default start (exec env config run start).

(** The trace object after [writeSpan], with a child span that the host
    starts on it before the project id is known. *)
Definition with_child : Trace :=
  mkTrace EmptyString EmptyString
          [mkSpan [] EmptyString "2018-01-01T00:00:00.100Z" RPC_SERVER
                  EmptyString EmptyString;
           mkSpan [] "2018-01-01T00:00:01.000Z" EmptyString RPC_CLIENT
                  "child" "2"].

Definition run_with_child : list Event :=
  [CallWriteSpan 0%nat; Assign 0%nat with_child; Run 0 (Fulfilled "0")].

Definition written : World :=
  default start (exec env config [CallWriteSpan 0%nat] start).
Definition grown : World :=
  default start (exec env config [Assign 0%nat with_child] written).
End C5_example.

Definition is_Run (e : Event) : Prop :=
  match e with Run _ _ => True | _ => False end.

(** C9 as the specification words it: a write by the host to the trace
    object, right after [writeSpan] has returned, changes nothing of what the
    pending tasks go on to publish. *)
Definition snapshot_at_return (env : Env) (config : TraceWriterConfig)
    (w : World) (t : loc) : Prop :=
  ∀ w1 v es wa wb,
    writeSpan env config t w = Some w1 →
    Forall is_Run es →
    exec env config es w1 = Some wa →
    exec env config (Assign t v :: es) w1 = Some wb →
    requests (effects wa) = requests (effects wb).

Module C9_example.
Import Sample.

Definition config := Sample.config (Int 1) 3600.

(** A writer that does not know its project id yet. *)
Definition start : World := fresh config {[ 0%nat := createDummyTrace ]}.

Definition written : World :=
  default start (writeSpan env config 0%nat start).

(** What the host stores in the trace object afterwards. *)
Definition edited : Trace := mkTrace EmptyString "changed" [].

(** The lookup is answered, then the immediate flush runs. *)
Definition run : list Event := [Run 0 (Fulfilled "0"); Run 0 Elapsed].

Definition untouched : World :=
  default written (exec env config run written).
Definition touched : World :=
  default written (exec env config (Assign 0%nat edited :: run) written).
End C9_example.

Module C10_example.
Import Sample.

Definition config := Sample.config Infinity 3600.

(** A server span still open and a client span already closed. *)
Definition trace : Trace :=
  mkTrace EmptyString "b2"
          [mkSpan [("/http/method", "GET")] "2018-01-01T00:00:00.000Z"
                  EmptyString RPC_SERVER "/" "1";
           mkSpan [] "2018-01-01T00:00:00.001Z" "2018-01-01T00:00:00.002Z"
                  RPC_CLIENT "db" "2"].

Definition start : World :=
  default (fresh config ∅)
          (exec env config (initialized "0")
                (fresh config {[ 0%nat := trace ]})).
End C10_example.

(** A trace object on which [writeSpan] has nothing left to do, for default
    labels [d] and project id [pid]. *)
Definition settled (d : LabelObject) (pid : string) (tr : Trace) : Prop :=
  closed tr ∧ projectId tr = pid ∧
  Forall (fun s => copy_defaults d s = s) (spans tr).

Module C3_example.
Import Sample.

(** The case of the test: a threshold of five. *)
Definition config := Sample.config (Int 5) 3600.

Definition start : World :=
  default (fresh config ∅)
          (exec env config (initialized "0")
                (fresh config
                   (list_to_map
                      (map (fun t => (t, createDummyTrace)) (seq 0 5))))).
End C3_example.

Module Tests.
Import Sample.

(** The cases of test/test-trace-writer.ts, as runs. *)

(** errors when a project ID cannot be determined *)
Definition project_id_error : list Event :=
  [CallInitialize; Run 0 (Rejected failure)].

(** appends project ID and default labels to written traces
    ([bufferSize: 1]) *)
Definition appends : list Event :=
  initialized "0" ++ [CallWriteSpan 0%nat; Run 1 Elapsed].

(** condition for publishing traces is satisfied periodically
    ([flushDelaySeconds: 1]): two rounds of a write and the timer. *)
Definition periodically : list Event :=
  initialized "0"
  ++ [CallWriteSpan 0%nat; Run 0 Elapsed; Run 0 (Responded None (Some 200));
      CallWriteSpan 0%nat; Run 0 Elapsed].

(** emits an error if there was an error publishing *)
Definition publish_error : list Event :=
  initialized "0"
  ++ [CallWriteSpan 0%nat; Run 1 Elapsed; Run 1 (Responded (Some failure) None)].

Definition start (size : number) (delay : Z) : World :=
  fresh (config size delay) {[ 0%nat := createDummyTrace ]}.

Definition is_publish_error (e : Effect) : bool :=
  match e with
  | Log error [msg] => String.prefix "TraceWriter#publish" msg
  | _ => false
  end.

End Tests.

(** ** Further observations on tasks and effects *)

(** How many elements of a list pass a test. *)
Fixpoint tally {A} (f : A -> bool) (l : list A) : nat :=
  match l with
  | [] => 0%nat
  | x :: l' => ((if f x then 1 else 0) + tally f l')%nat
  end.

(** The address every publish goes to, for project [pid]. *)
Definition traces_uri (pid : string) : string :=
  "https://cloudtrace.googleapis.com/v1/projects/" +:+ pid +:+ "/traces".

(** The effects show every request as [flushBuffer] and [publish] make it:
    a PATCH to the traces address of a project, right after the entry that
    announces it and the debug entry that lists the batch taken from the
    buffer; the batch is not empty, and the body is the JSON object whose
    [traces] array holds the entries of the batch, in their order, separated
    by commas. *)
Definition published_batches (es : list Effect) : Prop :=
  ∀ i method uri body,
    es !! i = Some (Request method uri body) →
    method = "PATCH" ∧
    ∃ pid batch,
      uri = traces_uri pid ∧ batch ≠ [] ∧
      body = "{" +:+ dquote +:+ "traces" +:+ dquote +:+ ":["
             +:+ String.concat "," batch +:+ "]}" ∧
      (2 ≤ i)%nat ∧
      es !! (i - 2)%nat
      = Some (Log debug ("TraceWriter#flushBuffer: Flushing traces" :: batch)) ∧
      es !! (i - 1)%nat
      = Some (Log info ["TraceWriter#publish: Publishing to " +:+ uri]).

Definition is_Response (task : Task) : bool :=
  match task with Response => true | _ => false end.

(** The entry the response callback of [publish] logs. *)
Definition is_outcome (e : Effect) : bool :=
  match e with
  | Log error [msg] =>
      String.prefix "TraceWriter#publish: Received error status code " msg
  | Log info [msg] =>
      String.prefix "TraceWriter#publish: Published w/ status code: " msg
  | _ => false
  end.

Definition is_Request (e : Effect) : bool :=
  match e with Request _ _ _ => true | _ => false end.

Definition is_Exit (e : Effect) : bool :=
  match e with Exit _ => true | _ => false end.

Definition is_ExitTimeout (task : Task) : bool :=
  match task with ExitTimeout _ => true | _ => false end.

Definition is_CallStop (e : Event) : Prop :=
  match e with CallStop => True | _ => False end.

(** The pending work and the callbacks of the [i]-th call of [initialize]. *)
Definition is_init_lookup (i : nat) (task : Task) : bool :=
  match task with
  | Then _ (OnInitialize j) => bool_decide (j = i)
  | _ => false
  end.

Definition is_init_metadata (i : nat) (task : Task) : bool :=
  match task with
  | GetHostname j | GetInstanceId j _ => bool_decide (j = i)
  | _ => false
  end.

Definition is_callback (i : nat) (e : Effect) : bool :=
  match e with
  | Callback j _ => bool_decide (j = i)
  | _ => false
  end.

(** A request that goes to the traces of project [pid]. *)
Definition goes_to (pid : string) (e : Effect) : Prop :=
  match e with
  | Request _ uri _ => uri = traces_uri pid
  | _ => True
  end.

(** A reaction that waits for a lookup by the base service. *)
Definition is_lookup (task : Task) : Prop :=
  match task with Then Lookup _ => True | _ => False end.

Definition is_UncaughtException (e : Event) : bool :=
  match e with UncaughtException => true | _ => false end.

Definition is_CallInitialize (e : Event) : bool :=
  match e with CallInitialize => true | _ => false end.

(** The exit timers and exits that an uncaught exception gives rise to. *)
Definition exits (w : World) : nat :=
  (tally is_ExitTimeout (tasks w) + tally is_Exit (effects w))%nat.

(** The spans of a trace that [writeSpan] has to close. *)
Definition open_spans (tr : Trace) : nat :=
  tally (fun s => bool_decide (endTime s = EmptyString)) (spans tr).

(** The names of the labels [initialize] sets. *)
Definition label_names (env : Env) : list string :=
  let L := TraceLabels env in
  [AGENT_DATA L; GCE_HOSTNAME L; GCE_INSTANCE_ID L; GAE_MODULE_NAME L;
   GAE_MODULE_VERSION L; GAE_VERSION L].

(** The counter of a call of [initialize] against what that call has
    pending and has called back: [a] reactions on the project id, [b]
    metadata queries, [c] callbacks. A call that was never made has none of
    them. A call that was made has at most one of each, and its counter is
    the number of the operations that can still bring it to zero: the
    pending ones as long as the callback has not been called, and after a
    callback with an error one more than the pending query, so that zero is
    not reached a second time. *)
Definition counts_agree (p : option Z) (a b c : nat) : Prop :=
  match p with
  | None => a = 0%nat ∧ b = 0%nat ∧ c = 0%nat
  | Some p =>
      (a ≤ 1)%nat ∧ (b ≤ 1)%nat ∧
      ((c = 0%nat ∧ p = Z.of_nat (a + b) ∧ (1 ≤ a + b)%nat)
       ∨ (c = 1%nat ∧ a = 0%nat
          ∧ ((b = 0%nat ∧ p = 0) ∨ p = Z.of_nat (1 + b))))
  end.

Definition initialize_state (w : World) (i : nat) : Prop :=
  counts_agree (pendingOperations w !! i)
               (tally (is_init_lookup i) (tasks w))
               (tally (is_init_metadata i) (tasks w))
               (tally (is_callback i) (effects w)).

Section Entries.
Variable env : Env.
Variable config : TraceWriterConfig.

(** The entries the run of [es] from [w] appends to the buffer, in order. *)
Fixpoint enqueued (es : list Event) (w : World) : list string :=
  match es with
  | [] => []
  | e :: es' =>
      from_option (fun tr => [JSON_stringify env tr]) [] (enqueues env e w)
      ++ match step env config e w with
         | Some w' => enqueued es' w'
         | None => []
         end
  end.

End Entries.

Module Further_example.
Import Sample.

(** A writer that is given its project id, flushes at two entries and exits
    on an uncaught exception. *)
Definition config : TraceWriterConfig :=
  mkConfig (Some "my-project") "flushAndExit" (Int 2) 5 10 65536
           (mkServiceContext (Some "foo") (Some "bar") (Some "baz")).

Definition heap0 : gmap loc Trace :=
  {[ 0%nat := createDummyTrace; 1%nat := createDummyTrace ]}.

Definition start : World := fresh config heap0.

(** [initialize] with a metadata server that answers, two writes, the
    immediate flush and its response, a third write, an uncaught exception
    and the exit. *)
Definition run : list Event :=
  [CallInitialize; Run 0 (Fulfilled "my-project");
   Run 0 (Fulfilled "my-hostname"); Run 1 (Fulfilled "4520031799277581759");
   CallWriteSpan 0%nat; CallWriteSpan 1%nat; Run 1 Elapsed;
   Run 1 (Responded None (Some 200)); CallWriteSpan 0%nat;
   UncaughtException; Run 2 Elapsed].

Definition final : World := default start (exec env config run start).

(** An initialized writer of the test's configuration. *)
Definition plain : TraceWriterConfig := Sample.config (Int 2) 1.

Definition ready : World :=
  default (fresh plain heap0)
          (exec env plain (initialized "0") (fresh plain heap0)).

(** Two writes of the same trace object, the timer, a failed publish. *)
Definition round : list Event :=
  [CallWriteSpan 0%nat; CallWriteSpan 0%nat; Run 0 Elapsed;
   Run 1 (Responded (Some failure) (Some 500))].

Definition after_round : World := default ready (exec env plain round ready).

(** The same trace object written twice. *)
Definition written : World := default ready (writeSpan env plain 0%nat ready).
Definition rewritten : World :=
  default written (writeSpan env plain 0%nat written).

(** A writer waiting for the metadata server. *)
Definition querying : World :=
  default (fresh plain heap0) (exec env plain [CallInitialize] (fresh plain heap0)).

End Further_example.

(** ** Further observations on runs *)

(** The step runs [flushBuffer]: the handler of uncaught exceptions, a timer
    or an immediate coming due, or the answer to the project id that
    [initialize] waits for. *)
Definition flushes (e : Event) (w : World) : bool :=
  match e with
  | UncaughtException => true
  | Run n _ =>
      match tasks w !! n with
      | Some (Timeout _) | Some Immediate | Some (Then _ (OnInitialize _)) =>
          true
      | _ => false
      end
  | _ => false
  end.



Section Flushing.
Variable env : Env.
Variable config : TraceWriterConfig.

(** How many steps of the run of [es] from [w] run [flushBuffer]. *)
Fixpoint flushing (es : list Event) (w : World) : nat :=
  match es with
  | [] => 0%nat
  | e :: es' =>
      ((if flushes e w then 1 else 0)
       + match step env config e w with
         | Some w' => flushing es' w'
         | None => 0
         end)%nat
  end.

End Flushing.

(** * The http plugin (src/plugins/plugin-http.ts)

    The functions of the plugin that decide whether an outgoing request is
    traced and how its span is named and labelled. The options an
    application passes are modelled as far as these functions read them,
    with each property either absent ([None], the [undefined] of the
    source) or a string, the port a string or a non-negative integer. *)
Module PluginHttp.

(** An agent of the http module: the plugin reads its [protocol]. *)
Record Agent := mkAgent { agent_protocol : option string }.

Inductive Port := PortNumber (n : N) | PortText (s : string).

Record RequestOptions := mkRequestOptions {
  protocol : option string;
  hostname : option string;
  host : option string;
  port : option Port;
  path : option string;
  pathName : option string;
  method : option string;
  headers : option LabelObject;
  _defaultAgent : option Agent
}.

(** The first argument of [http.request]: a URL string or an options
    object ([None] below stands for a call without one). *)
Inductive Options := Uri (s : string) | Obj (o : RequestOptions).

(** [a || b] when both are optional strings, and when [b] is a string. *)
Definition or (a b : option string) : option string :=
  match truthy a with
  | Some s => Some s
  | None => b
  end.

Definition or_string (a : option string) (b : string) : string :=
  default b (truthy a).

(** A value in a string concatenation. *)
Definition to_string (v : option string) : string := default "undefined" v.

(** [port ? (':' + port) : ''] *)
Definition port_suffix (p : option Port) : string :=
  match p with
  | Some (PortNumber n) =>
      if decide (n = 0%N) then EmptyString else ":" +:+ pretty n
  | Some (PortText s) =>
      if decide (s = EmptyString) then EmptyString else ":" +:+ s
  | None => EmptyString
  end.

Definition getSpanName (options : RequestOptions) : string :=
  or_string (or (hostname options) (host options)) "localhost".

Section Plugin.
(** [httpAgent.globalAgent], the name of the header that marks the agent's
    own requests, [url.parse], and whether [api.createChildSpan] gives a
    span for a name at the time of the call. *)
Variable globalAgent : Agent.
Variable TRACE_AGENT_REQUEST_HEADER : string.
Variable url_parse : string -> RequestOptions.
Variable createChildSpan : string -> bool.

Definition extractUrl (options : Options) : string :=
  match options with
  | Uri uri => uri
  | Obj o =>
      let agent := default globalAgent (_defaultAgent o) in
      to_string (or (protocol o) (agent_protocol agent)) +:+ "//"
      +:+ or_string (or (hostname o) (host o)) "localhost"
      +:+ port_suffix (port o)
      +:+ or_string (or (path o) (pathName o)) "/"
  end.

(** The truth value of
    [options && options.headers && !!options.headers[HEADER]]. *)
Definition isTraceAgentRequest (options : option Options) : bool :=
  match options with
  | Some (Obj o) =>
      match headers o with
      | Some h =>
          bool_decide (is_Some (truthy (obj_get TRACE_AGENT_REQUEST_HEADER h)))
      | None => false
      end
  | _ => false
  end.

(** What [request_trace] does with a call: it hands the call to the
    original [request] with the options it then has, or it creates a child
    span with a name, gives it the method and URL labels and calls the
    original with the options and a callback of its own. *)
Inductive Call :=
| Untraced (options : option Options)
| Traced (name : string) (http_method : option string) (http_url : string)
         (options : RequestOptions).

(** The function [makeRequestTrace] returns, up to its call of the original
    [request]. *)
Definition request_trace (options : option Options) : Call :=
  match options with
  | None | Some (Uri EmptyString) => Untraced options
  | Some opts =>
      if isTraceAgentRequest options then Untraced options
      else
        let uri := match opts with
                   | Uri _ => Some (extractUrl opts)
                   | Obj _ => None
                   end in
        let o := match opts with
                 | Uri s => url_parse s
                 | Obj o => o
                 end in
        if createChildSpan (getSpanName o)
        then Traced (getSpanName o) (method o)
                    (match truthy uri with
                     | Some u => u
                     | None => extractUrl (Obj o)
                     end)
                    o
        else Untraced (Some (Obj o))
  end.

End Plugin.

(** A request to the local metadata server, and Node's global agent. *)
Definition http_agent : Agent := mkAgent (Some "http:").

Definition metadata_request : RequestOptions :=
  mkRequestOptions None None (Some "metadata.google.internal")
                   (Some (PortNumber 80)) (Some "/computeMetadata/v1/project")
                   None (Some "GET") (Some [("Metadata-Flavor", "Google")])
                   None.

(** A request of the agent itself, marked by a header. *)
Definition agent_header : string := "x-cloud-trace-agent-request".


End PluginHttp.

(** * Properties *)

(** ** The cases of the test suite *)

Example test_project_id_error :
  ∃ w, exec Sample.env (Sample.config Infinity 3600) Tests.project_id_error
            (Tests.start Infinity 3600) = Some w
       ∧ last (effects w) = Some (Callback 0 (Some Sample.failure)).
Proof. eexists. split; [vm_compute; reflexivity | reflexivity]. Qed.

Example test_appends_project_id_and_labels :
  ∃ w tr, exec Sample.env (Sample.config (Int 1) 3600) Tests.appends
               (Tests.start (Int 1) 3600) = Some w
          ∧ heap w !! 0%nat = Some tr
          ∧ requests (effects w) = [payload [Sample.stringify tr]]
          ∧ projectId tr = "0"
          ∧ (∃ sp, spans tr = [sp] ∧ endTime sp ≠ EmptyString
                   ∧ labels sp = defaultLabels w).
Proof.
eexists _, _. split; [vm_compute; reflexivity|].
split; [vm_compute; reflexivity|]. split; [vm_compute; reflexivity|].
split; [reflexivity|]. eexists. split; [reflexivity|]. split; [|reflexivity].
vm_compute. discriminate.
Qed.

Example test_publishes_periodically :
  ∃ w, exec Sample.env (Sample.config Infinity 1) Tests.periodically
            (Tests.start Infinity 1) = Some w
       ∧ length (requests (effects w)) = 2%nat.
Proof. eexists. split; [vm_compute; reflexivity | reflexivity]. Qed.

Example test_publish_error_is_logged :
  ∃ w, exec Sample.env (Sample.config (Int 1) 3600) Tests.publish_error
            (Tests.start (Int 1) 3600) = Some w
       ∧ length (filter (fun e => Tests.is_publish_error e = true) (effects w))
         = 1%nat.
Proof. eexists. split; [vm_compute; reflexivity | vm_compute; reflexivity]. Qed.

(** ** JavaScript objects *)

Section Objects.
Implicit Types (o target source : LabelObject) (k v : string).

Lemma obj_get_set_eq k v o : obj_get k (obj_set k v o) = Some v.
Proof.
  induction o as [|[k' v'] o IH]; simpl.
  - by rewrite decide_True.
  - destruct (decide (k' = k)) as [->|Hne]; simpl.
    + by rewrite decide_True.
    + by rewrite decide_False.
Qed.

Lemma obj_get_set_ne k k' v o :
  k ≠ k' → obj_get k' (obj_set k v o) = obj_get k' o.
Proof.
  intros Hne. induction o as [|[k0 v0] o IH]; simpl.
  - by rewrite decide_False.
  - destruct (decide (k0 = k)) as [->|Hne0]; simpl.
    + by rewrite !decide_False.
    + by rewrite IH.
Qed.

Lemma obj_set_id k v o : obj_get k o = Some v → obj_set k v o = o.
Proof.
  induction o as [|[k' v'] o IH]; simpl; [done|].
  destruct (decide (k' = k)) as [->|Hne]; intros H.
  - congruence.
  - by rewrite IH.
Qed.

Lemma obj_get_Some_key k v o : obj_get k o = Some v → k ∈ Object_keys o.
Proof.
  unfold Object_keys.
  induction o as [|[k' v'] o IH]; simpl; [done|].
  destruct (decide (k' = k)) as [->|Hne]; intros H.
  - apply list_elem_of_here.
  - apply list_elem_of_further; auto.
Qed.

Lemma obj_get_key_Some k o : k ∈ Object_keys o → is_Some (obj_get k o).
Proof.
  unfold Object_keys.
  induction o as [|[k' v'] o IH]; simpl.
  - by intros ?%elem_of_nil.
  - destruct (decide (k' = k)) as [->|Hne]; [eauto|].
    intros [?|?]%elem_of_cons; [congruence | auto].
Qed.

Lemma copy_keys_get source ks k target :
  obj_get k (foldl (copy_key source) target ks)
  = if decide (k ∈ ks ∧ is_Some (obj_get k source))
    then obj_get k source else obj_get k target.
Proof.
  revert target. induction ks as [|k0 ks IH]; intros target; cbn [foldl].
  - case_decide as H; [|done]. by destruct H as [?%elem_of_nil _].
  - rewrite IH. unfold copy_key.
    destruct (decide (k ∈ ks ∧ is_Some (obj_get k source))) as [[Hin Hs]|Hn].
    + rewrite decide_True; [done|]. split; [by right | done].
    + destruct (decide (k0 = k)) as [->|Hne].
      * destruct (obj_get k source) as [v|] eqn:Hv.
        -- rewrite decide_True; [|split; [by left | eauto]].
           apply obj_get_set_eq.
        -- rewrite decide_False; [done|]. by intros [_ [? ?]].
      * rewrite decide_False.
        -- destruct (obj_get k0 source); [|done].
           by apply obj_get_set_ne.
        -- intros [[?|?]%elem_of_cons ?]; [congruence | by apply Hn].
Qed.

(** A key of the source reads, after the copy, as in the source. *)
Lemma Object_assign_source target source k v :
  obj_get k source = Some v →
  obj_get k (Object_assign target source) = Some v.
Proof.
  intros H. unfold Object_assign.
  rewrite copy_keys_get, decide_True; [done|].
  split; [by eapply obj_get_Some_key | eauto].
Qed.

(** A key the source does not have reads as before. *)
Lemma Object_assign_other target source k :
  obj_get k source = None →
  obj_get k (Object_assign target source) = obj_get k target.
Proof.
  intros H. unfold Object_assign.
  rewrite copy_keys_get, decide_False; [done|].
  rewrite H. by intros [_ [? ?]].
Qed.

Lemma copy_keys_fixed source ks target :
  (∀ k, k ∈ ks → obj_get k target = obj_get k source) →
  foldl (copy_key source) target ks = target.
Proof.
  induction ks as [|k ks IH]; intros H; simpl; [done|].
  assert (copy_key source target k = target) as ->.
  { unfold copy_key. destruct (obj_get k source) as [v|] eqn:Hv; [|done].
    apply obj_set_id. rewrite H; [done | by left]. }
  apply IH. intros k' ?. apply H. by right.
Qed.

(** Copying the same source a second time changes nothing. *)
Lemma Object_assign_idemp target source :
  Object_assign (Object_assign target source) source
  = Object_assign target source.
Proof.
  unfold Object_assign at 1.
  apply copy_keys_fixed. intros k Hk.
  destruct (obj_get_key_Some _ _ Hk) as [v Hv].
  rewrite Hv. by apply Object_assign_source.
Qed.

End Objects.

Lemma occurrences_app {A} `{EqDecision A} (x : A) (l1 l2 : list A) :
  occurrences x (l1 ++ l2) = (occurrences x l1 + occurrences x l2)%nat.
Proof. unfold occurrences. by rewrite filter_app, length_app. Qed.

Lemma requests_app es1 es2 :
  requests (es1 ++ es2) = requests es1 ++ requests es2.
Proof. apply omap_app. Qed.

Lemma requests_Log es lvl args : requests (es ++ [Log lvl args]) = requests es.
Proof. rewrite requests_app. simpl. apply app_nil_r. Qed.

Section Writing.
Variable env : Env.
Variable config : TraceWriterConfig.

Local Abbreviation writeSpan := (writeSpan env config).
Local Abbreviation close_spans := (close_spans env).
Local Abbreviation prepared := (prepared env).
Local Abbreviation stamped := (stamped env).

Lemma stamped_mono n n' m m' s s1 :
  (m ≤ n)%nat → (n' ≤ m')%nat → stamped n n' s s1 → stamped m m' s s1.
Proof.
  unfold stamped. intros ? ? (?&?&?&?&?&H). repeat split; try done.
  destruct (decide (endTime s = EmptyString)); [|done].
  destruct H as (k&?&?). exists k. split; [lia | done].
Qed.

Lemma close_spans_ticks n ss : (n ≤ (close_spans n ss).2)%nat.
Proof.
  revert n. induction ss as [|s ss IH]; intros n; simpl; [done|].
  destruct (decide (endTime s = EmptyString)).
  - specialize (IH (S n)). destruct (close_spans (S n) ss). simpl in *. lia.
  - specialize (IH n). by destruct (close_spans n ss).
Qed.

Lemma close_spans_stamped n ss :
  Forall2 (stamped n (close_spans n ss).2) ss (close_spans n ss).1.
Proof.
  revert n. induction ss as [|s ss IH]; intros n; simpl; [constructor|].
  destruct (decide (endTime s = EmptyString)) as [He|He].
  - pose proof (IH (S n)) as H. pose proof (close_spans_ticks (S n) ss) as Hn.
    destruct (close_spans (S n) ss) as [r n']. simpl in *. constructor.
    + unfold stamped. simpl. repeat split; try done.
      rewrite decide_True by done. exists n. split; [lia | done].
    + eapply Forall2_impl; [exact H|]. intros ? ?.
      apply stamped_mono; lia.
  - pose proof (IH n) as H.
    destruct (close_spans n ss) as [r n']. simpl in *. constructor; [|done].
    unfold stamped. repeat split; try done. by rewrite decide_False.
Qed.

Lemma close_spans_closed n ss :
  (∀ m, toISOString env m ≠ EmptyString) →
  Forall closed_span (close_spans n ss).1.
Proof.
  intros Hclock. revert n. induction ss as [|s ss IH]; intros n; simpl.
  - constructor.
  - destruct (decide (endTime s = EmptyString)) as [He|He].
    + specialize (IH (S n)). destruct (close_spans (S n) ss). simpl in *.
      constructor; [apply Hclock | done].
    + specialize (IH n). destruct (close_spans n ss). simpl in *.
      by constructor.
Qed.

(** Closed spans are left as they are. *)
Lemma close_spans_fixed n ss :
  Forall closed_span ss → close_spans n ss = (ss, n).
Proof.
  induction 1 as [|s ss Hs _ IH]; simpl; [done|].
  rewrite decide_False by done. by rewrite IH.
Qed.

Lemma copy_defaults_endTime d s : endTime (copy_defaults d s) = endTime s.
Proof. unfold copy_defaults. by destruct (decide _). Qed.

Lemma copy_defaults_idemp d s :
  copy_defaults d (copy_defaults d s) = copy_defaults d s.
Proof.
  unfold copy_defaults. destruct (decide (kind s = RPC_SERVER)) as [H|H].
  - simpl. rewrite decide_True by done. unfold set_labels. simpl.
    by rewrite Object_assign_idemp.
  - by rewrite decide_False.
Qed.

Lemma prepared_closed w tr :
  (∀ m, toISOString env m ≠ EmptyString) → closed (prepared w tr).
Proof.
  intros Hclock. unfold closed, prepared. simpl.
  apply Forall_map. eapply Forall_impl; [by apply close_spans_closed|].
  intros s Hs. unfold closed_span. by rewrite copy_defaults_endTime.
Qed.

(** [writeSpan] when the project id is known: the enqueue is synchronous. *)
Lemma writeSpan_resolved w t tr :
  heap w !! t = Some tr →
  this_projectId w ≠ NO_PROJECT_ID_TOKEN →
  ∃ w1, writeSpan t w = Some w1 ∧
    let tr1 := set_projectId (this_projectId w) (prepared w tr) in
    heap w1 = <[t := tr1]> (heap w) ∧
    buffer w1 = buffer w ++ [JSON_stringify env tr1] ∧
    defaultLabels w1 = defaultLabels w ∧
    this_projectId w1 = this_projectId w ∧
    isActive w1 = isActive w ∧
    ticks w1 = (close_spans (ticks w) (spans tr)).2 ∧
    tasks w1 = (if length_ge (S (length (buffer w))) (bufferSize config)
                then tasks w ++ [Immediate] else tasks w) ∧
    pendingOperations w1 = pendingOperations w ∧
    effects w1
    = effects w
      ++ Log info ["TraceWriter#queueTrace: buffer.size = "
                   +:+ pretty (S (length (buffer w)))]
         :: (if length_ge (S (length (buffer w))) (bufferSize config)
             then [Log info
                     ["TraceWriter#queueTrace: Trace buffer full, flushing."]]
             else []).
Proof.
intros Ht Hpid. unfold writeSpan, prepared. rewrite Ht. simpl.
destruct (close_spans (ticks w) (spans tr)) as [cl n] eqn:Hcl. simpl.
unfold queueTrace. simpl. rewrite decide_True by done.
unfold afterProjectId. simpl. rewrite lookup_insert_eq. simpl.
rewrite length_app, Nat.add_1_r. simpl.
eexists. split; [reflexivity|].
destruct (length_ge _ _); simpl; rewrite insert_insert_eq, <- ?app_assoc; done.
Qed.

(** [writeSpan] while the project id is the placeholder: the enqueue waits
    for a lookup. *)
Lemma writeSpan_deferred w t tr :
  heap w !! t = Some tr →
  this_projectId w = NO_PROJECT_ID_TOKEN →
  ∃ w1, writeSpan t w = Some w1 ∧
    heap w1 = <[t := prepared w tr]> (heap w) ∧
    buffer w1 = buffer w ∧
    defaultLabels w1 = defaultLabels w ∧
    this_projectId w1 = this_projectId w ∧
    isActive w1 = isActive w ∧
    ticks w1 = (close_spans (ticks w) (spans tr)).2 ∧
    tasks w1 = tasks w ++ [Then Lookup (OnQueueTrace t)] ∧
    pendingOperations w1 = pendingOperations w ∧
    effects w1 = effects w.
Proof.
  intros Ht Hpid. unfold writeSpan, prepared. rewrite Ht. simpl.
  destruct (close_spans (ticks w) (spans tr)) as [cl n] eqn:Hcl. simpl.
  unfold queueTrace, getProjectId. simpl.
  rewrite !decide_False by (intros H; by apply H).
  eexists. split; [reflexivity|]. done.
Qed.

Lemma writeSpan_is_Some w t :
  is_Some (heap w !! t) → is_Some (writeSpan t w).
Proof.
  intros [tr Ht].
  destruct (decide (this_projectId w = NO_PROJECT_ID_TOKEN)) as [H|H].
  - destruct (writeSpan_deferred w t tr Ht H) as (w1&->&_). eauto.
  - destruct (writeSpan_resolved w t tr Ht H) as (w1&->&_). eauto.
Qed.

Lemma prepared_spans w tr :
  Forall2 (fun sp sp1 =>
             ∃ c, stamped (ticks w) (close_spans (ticks w) (spans tr)).2 sp c
                  ∧ sp1 = copy_defaults (defaultLabels w) c)
          (spans tr) (spans (prepared w tr)).
Proof.
  unfold prepared. simpl. apply Forall2_fmap_r.
  eapply Forall2_impl; [apply close_spans_stamped|].
  intros sp c Hc. by exists c.
Qed.

(** In both cases the trace object holds the prepared trace, with the
    project id written over it if the enqueue was synchronous. *)
Lemma writeSpan_heap w t tr w1 :
  heap w !! t = Some tr →
  writeSpan t w = Some w1 →
  heap w1 = <[t := set_projectId
                     (if decide (this_projectId w = NO_PROJECT_ID_TOKEN)
                      then projectId tr else this_projectId w)
                     (prepared w tr)]> (heap w)
  ∧ ticks w1 = (close_spans (ticks w) (spans tr)).2.
Proof.
  intros Ht Hw.
  destruct (decide (this_projectId w = NO_PROJECT_ID_TOKEN)) as [H|H].
  - destruct (writeSpan_deferred w t tr Ht H) as (w1'&Hw'&Hh&_&_&_&_&?&_).
    rewrite Hw in Hw'. injection Hw' as <-. by rewrite Hh.
  - destruct (writeSpan_resolved w t tr Ht H) as (w1'&Hw'&Hh&_&_&_&_&?&_).
    rewrite Hw in Hw'. by injection Hw' as <-.
Qed.

End Writing.

(** ** Default labels on server spans (claim C1) *)



(** C1, as worded, fails: after [initialize], writing a server span that
    already carries the agent label replaces the caller's value by the
    default. *)
Lemma C1_caller_value_is_overwritten :
  ¬ caller_labels_win Sample.env C1_example.config C1_example.start 0%nat.
Proof.
  intros H.
  pose proof (H C1_example.trace C1_example_run.written C1_example_run.trace1
                0%nat C1_example_run.span0 C1_example_run.span1
                "/agent" C1_example_run.agent) as Hbad.
  do 7 (specialize (Hbad ltac:(vm_compute; reflexivity))).
  vm_compute in Hbad. discriminate.
Qed.

(** C1 (amended): after [writeSpan], every span of kind RPC_SERVER of the
    written trace carries every key of the default labels with the default
    value, a value the caller had set for such a key being replaced; the keys
    the default labels do not have read as the caller left them. *)
Theorem C1_default_labels_copied (env : Env) (config : TraceWriterConfig)
    (w : World) (t : loc) (tr : Trace) (w1 : World) :
  heap w !! t = Some tr →
  writeSpan env config t w = Some w1 →
  ∃ tr1, heap w1 !! t = Some tr1 ∧
    length (spans tr1) = length (spans tr) ∧
    ∀ i sp sp1,
      spans tr !! i = Some sp →
      spans tr1 !! i = Some sp1 →
      kind sp = RPC_SERVER →
      kind sp1 = RPC_SERVER ∧
      (∀ k v, obj_get k (defaultLabels w) = Some v →
              obj_get k (labels sp1) = Some v) ∧
      (∀ k, obj_get k (defaultLabels w) = None →
            obj_get k (labels sp1) = obj_get k (labels sp)).
Proof.
  intros Ht Hw. destruct (writeSpan_heap env config w t tr w1 Ht Hw) as [Hh _].
  eexists. split; [rewrite Hh; apply lookup_insert_eq|].
  pose proof (prepared_spans env w tr) as HF. simpl. split.
  { symmetry. by eapply Forall2_length. }
  intros i sp sp1 Hsp Hsp1 Hkind.
  destruct (Forall2_lookup_lr _ _ _ _ _ _ HF Hsp Hsp1) as (c&Hc&->).
  destruct Hc as (Hl&_&Hk&_).
  unfold copy_defaults. rewrite decide_True by congruence. simpl.
  rewrite Hl. split; [congruence|]. split.
  - intros k v. apply Object_assign_source.
  - intros k. apply Object_assign_other.
Qed.

Lemma C1_default_labels_copied_witness :
  heap C1_example.start !! 0%nat = Some C1_example.trace
  ∧ writeSpan Sample.env C1_example.config 0%nat C1_example.start
    = Some C1_example_run.written
  ∧ ∃ tr1, heap C1_example_run.written !! 0%nat = Some tr1
           ∧ length (spans tr1) = length (spans C1_example.trace).
Proof.
  assert (heap C1_example.start !! 0%nat = Some C1_example.trace) as H1
    by (vm_compute; reflexivity).
  assert (writeSpan Sample.env C1_example.config 0%nat C1_example.start
          = Some C1_example_run.written) as H2 by (vm_compute; reflexivity).
  split; [exact H1|]. split; [exact H2|].
  destruct (C1_default_labels_copied _ _ _ _ _ _ H1 H2) as (tr1&?&?&_).
  by exists tr1.
Defined.

(** ** Construction *)

Lemma constructor_inr config h w :
  constructor config h = inr w → w = fresh config h.
Proof. unfold constructor. case_decide; congruence. Qed.

Lemma constructor_valid config h :
  onUncaughtException config ∈ onUncaughtExceptionValues →
  constructor config h = inr (fresh config h).
Proof. intros H. unfold constructor. by rewrite decide_True. Qed.

(** ** Flushing and publishing (claims C4 and C8) *)

Lemma flushBuffer_empty w : buffer w = [] → flushBuffer w = w.
Proof. intros H. unfold flushBuffer. by rewrite H. Qed.

Lemma flushBuffer_nonempty w :
  buffer w ≠ [] →
  buffer (flushBuffer w) = [] ∧
  effects (flushBuffer w)
  = effects w
    ++ [Log debug ("TraceWriter#flushBuffer: Flushing traces" :: buffer w);
        Log info ["TraceWriter#publish: Publishing to "
                  +:+ "https://cloudtrace.googleapis.com/v1/projects/"
                  +:+ this_projectId w +:+ "/traces"];
        Request "PATCH"
                ("https://cloudtrace.googleapis.com/v1/projects/"
                 +:+ this_projectId w +:+ "/traces")
                (payload (buffer w))] ∧
  tasks (flushBuffer w) = tasks w ++ [Response].
Proof.
intros H. unfold flushBuffer. rewrite decide_False.
- simpl. by rewrite <- !app_assoc.
- by destruct (buffer w).
Qed.

Lemma flushBuffer_frame w :
  defaultLabels (flushBuffer w) = defaultLabels w ∧
  isActive (flushBuffer w) = isActive w ∧
  this_projectId (flushBuffer w) = this_projectId w ∧
  heap (flushBuffer w) = heap w ∧
  pendingOperations (flushBuffer w) = pendingOperations w ∧
  ticks (flushBuffer w) = ticks w.
Proof. unfold flushBuffer. by destruct (decide _). Qed.

(** [join] and [payload] against the Standard Library's [String.concat]:
    the entries in their order, a comma between any two of them, inside the
    [traces] array of one JSON object. *)
Lemma join_concat l : join l = String.concat "," l.
Proof.
induction l as [|s [|s' l] IH]; simpl in *; try done. by rewrite IH.
Qed.

Lemma payload_concat l :
  payload l
  = "{" +:+ dquote +:+ "traces" +:+ dquote +:+ ":["
    +:+ String.concat "," l +:+ "]}".
Proof. unfold payload. by rewrite join_concat. Qed.

(** C4: [flushBuffer] on an empty buffer returns the state it was given, so
    it publishes nothing; on a non-empty buffer it leaves an empty buffer and
    makes exactly one request, whose body is the former entries, in their
    order, separated by commas (the Standard Library's [String.concat] of
    them), inside the [traces] array of one JSON object; nothing else of the
    writer changes but the pending response. *)
Theorem C4_flushBuffer_swaps_and_publishes (w : World) :
  (buffer w = [] → flushBuffer w = w) ∧
  (buffer w ≠ [] →
   buffer (flushBuffer w) = [] ∧
   requests (effects (flushBuffer w))
   = requests (effects w)
     ++ ["{" +:+ dquote +:+ "traces" +:+ dquote +:+ ":["
         +:+ String.concat "," (buffer w) +:+ "]}"] ∧
   tasks (flushBuffer w) = tasks w ++ [Response] ∧
   defaultLabels (flushBuffer w) = defaultLabels w ∧
   isActive (flushBuffer w) = isActive w ∧
   this_projectId (flushBuffer w) = this_projectId w ∧
   heap (flushBuffer w) = heap w).
Proof.
split; [apply flushBuffer_empty|].
intros H. destruct (flushBuffer_nonempty w H) as (Hb&He&Ht).
destruct (flushBuffer_frame w) as (?&?&?&?&_).
rewrite He, requests_app. simpl. rewrite payload_concat. done.
Qed.

Lemma C4_flushBuffer_swaps_and_publishes_witness :
  flushBuffer C4_example.empty = C4_example.empty
  ∧ buffer (flushBuffer C4_example.full) = []
  ∧ requests (effects (flushBuffer C4_example.full))
    = ["{" +:+ dquote +:+ "traces" +:+ dquote +:+ ":[a,b]}"].
Proof.
destruct (C4_flushBuffer_swaps_and_publishes C4_example.empty) as [H1 _].
destruct (C4_flushBuffer_swaps_and_publishes C4_example.full) as [_ H2].
split; [apply H1; reflexivity|].
destruct H2 as (Hb&Hr&_); [discriminate|].
split; [exact Hb|]. rewrite Hr. reflexivity.
Defined.

Section Stepping.
Variable env : Env.
Variable config : TraceWriterConfig.

Local Abbreviation step := (step env config).
Local Abbreviation exec := (exec env config).

Lemma step_Run n o w task :
  tasks w !! n = Some task →
  step (Run n o) w
  = run_task env config task o (set_tasks (delete n (tasks w)) w).
Proof. intros H. simpl. by rewrite H. Qed.

(** The response callback after a failed publish. *)
Lemma step_Response_error n err status w :
  tasks w !! n = Some Response →
  step (Run n (Responded (Some err) status)) w
  = Some (logger error
            ["TraceWriter#publish: Received error status code "
             +:+ match status with
                 | Some c => if decide (c = 0) then "unknown" else pretty c
                 | None => "unknown"
                 end
             +:+ ". Original error: " +:+ err_text err]
            (set_tasks (delete n (tasks w)) w)).
Proof. intros H. by rewrite (step_Run _ _ _ _ H). Qed.

End Stepping.

(** C8: when the transport answers a publish with an error, the response
    callback completes normally and produces exactly one entry, at error
    level, naming the publish and the error; it leaves the buffer as it is,
    makes no request and schedules nothing. So a batch that is flushed and
    then rejected has been requested exactly once, is not back in the buffer,
    and leaves the pending tasks as they were before the flush. *)
Theorem C8_rejected_publish_is_logged_once (env : Env)
    (config : TraceWriterConfig) (err : Error) (status : option Z) :
  (∀ w n,
     tasks w !! n = Some Response →
     ∃ w' code,
       step env config (Run n (Responded (Some err) status)) w = Some w' ∧
       effects w'
       = effects w
         ++ [Log error ["TraceWriter#publish: Received error status code "
                        +:+ code +:+ ". Original error: " +:+ err_text err]] ∧
       buffer w' = buffer w ∧
       tasks w' = delete n (tasks w) ∧
       requests (effects w') = requests (effects w) ∧
       heap w' = heap w ∧
       isActive w' = isActive w) ∧
  (∀ w,
     buffer w ≠ [] →
     ∃ w',
       step env config (Run (length (tasks w)) (Responded (Some err) status))
            (flushBuffer w) = Some w' ∧
       buffer w' = [] ∧
       requests (effects w') = requests (effects w) ++ [payload (buffer w)] ∧
       tasks w' = tasks w).
Proof.
split.
- intros w n H. eexists _, _. split; [by apply step_Response_error|].
  simpl. split; [done|]. by rewrite requests_Log.
- intros w Hne. destruct (flushBuffer_nonempty w Hne) as (Hb&He&Ht).
  assert (tasks (flushBuffer w) !! length (tasks w) = Some Response) as Hn.
  { rewrite Ht. by apply list_lookup_middle. }
  eexists. split; [by apply step_Response_error|]. simpl.
  split; [done|]. rewrite requests_Log, He, requests_app. split; [done|].
  by rewrite Ht, delete_middle, app_nil_r.
Qed.

Lemma C8_rejected_publish_is_logged_once_witness :
  tasks C8_example.awaiting !! 0%nat = Some Response
  ∧ ∃ w', step Sample.env (Sample.config (Int 1) 3600)
               (Run 0 (Responded (Some Sample.failure) (Some 503)))
               C8_example.awaiting = Some w'
          ∧ buffer w' = ["c"] ∧ tasks w' = [].
Proof.
split; [reflexivity|].
destruct (C8_rejected_publish_is_logged_once Sample.env
            (Sample.config (Int 1) 3600) Sample.failure (Some 503))
  as [H _].
destruct (H C8_example.awaiting 0%nat eq_refl) as (w'&code&Hs&_&Hb&Ht&_).
exists w'. split; [exact Hs|]. split; [exact Hb | exact Ht].
Defined.

(** ** Counting notices and timers *)

Lemma pending_timers_app ts1 ts2 :
  pending_timers (ts1 ++ ts2)
  = (pending_timers ts1 + pending_timers ts2)%nat.
Proof. unfold pending_timers. by rewrite filter_app, length_app. Qed.

Lemma pending_timers_delete ts n task :
  ts !! n = Some task →
  (pending_timers (delete n ts)
   + (if decide (is_Timeout task) then 1 else 0))%nat
  = pending_timers ts.
Proof.
unfold pending_timers. revert n.
induction ts as [|a ts IH]; intros [|n] H; simpl in *; try done.
- injection H as ->. rewrite filter_cons.
  destruct (decide (is_Timeout task)); simpl; lia.
- rewrite !filter_cons. specialize (IH n H).
  destruct (decide (is_Timeout a)); simpl; lia.
Qed.

Lemma occurrences_nil {A} `{EqDecision A} (x : A) : occurrences x [] = 0%nat.
Proof. done. Qed.

Lemma occurrences_cons_ne {A} `{EqDecision A} (x y : A) l :
  y ≠ x → occurrences x (y :: l) = occurrences x l.
Proof. intros. unfold occurrences. by rewrite filter_cons, decide_False. Qed.

Lemma occurrences_cons_eq {A} `{EqDecision A} (x : A) l :
  occurrences x (x :: l) = S (occurrences x l).
Proof. unfold occurrences. by rewrite filter_cons, decide_True. Qed.

(** Entries other than [x] do not count. *)
Ltac count_notices :=
  rewrite ?occurrences_app;
  repeat first [ rewrite occurrences_cons_eq
               | rewrite occurrences_cons_ne by discriminate ];
  rewrite ?occurrences_nil, ?Nat.add_0_r.

Lemma flushBuffer_notices x w :
  (∀ args, x ≠ Log debug args) →
  (∀ msg, x ≠ Log info ["TraceWriter#publish: Publishing to " +:+ msg]) →
  (∀ m u b, x ≠ Request m u b) →
  occurrences x (effects (flushBuffer w)) = occurrences x (effects w).
Proof.
intros H1 H2 H3. destruct (decide (buffer w = [])) as [H|H].
- by rewrite flushBuffer_empty.
- destruct (flushBuffer_nonempty w H) as (_&->&_).
  rewrite occurrences_app.
  rewrite !occurrences_cons_ne, occurrences_nil; [lia|..].
  + intros ?. by eapply H3.
  + intros ?. by eapply (H2 ("https://cloudtrace.googleapis.com/v1/projects/"
                              +:+ this_projectId w +:+ "/traces")).
  + intros ?. by eapply H1.
Qed.

Lemma flushBuffer_drop w :
  occurrences drop_notice (effects (flushBuffer w))
  = occurrences drop_notice (effects w).
Proof. apply flushBuffer_notices; intros; discriminate. Qed.

(** ** The footprint of the building blocks *)

Section Footprints.
Variable env : Env.
Variable config : TraceWriterConfig.

Lemma writeSpan_Some_inv t w w' :
  writeSpan env config t w = Some w' → ∃ tr, heap w !! t = Some tr.
Proof.
unfold writeSpan. destruct (heap w !! t) as [tr|]; [eauto | done].
Qed.

Lemma countdown_inv i w w' :
  countdown i w = Some w' →
  buffer w' = buffer w ∧ defaultLabels w' = defaultLabels w ∧
  isActive w' = isActive w ∧ this_projectId w' = this_projectId w ∧
  heap w' = heap w ∧ tasks w' = tasks w ∧ ticks w' = ticks w ∧
  (effects w' = effects w ∨ effects w' = effects w ++ [Callback i None]).
Proof.
unfold countdown. destruct (pendingOperations w !! i) as [p|]; [|done].
simpl. intros [= <-]. destruct (decide (p - 1 = 0)); simpl; auto 10.
Qed.

Lemma buildDefaultLabels_frame hostname instanceId w :
  let w' := buildDefaultLabels env config hostname instanceId w in
  buffer w' = buffer w ∧ isActive w' = isActive w ∧
  this_projectId w' = this_projectId w ∧ heap w' = heap w ∧
  tasks w' = tasks w ∧ pendingOperations w' = pendingOperations w ∧
  ticks w' = ticks w ∧ effects w' = effects w.
Proof.
unfold buildDefaultLabels. repeat case_match; done.
Qed.

Lemma metadata_warning_frame what err w :
  let w' := metadata_warning what err w in
  buffer w' = buffer w ∧ isActive w' = isActive w ∧
  this_projectId w' = this_projectId w ∧ heap w' = heap w ∧
  tasks w' = tasks w ∧ pendingOperations w' = pendingOperations w ∧
  ticks w' = ticks w ∧ defaultLabels w' = defaultLabels w ∧
  (effects w' = effects w ∨ ∃ args, effects w' = effects w ++ [Log warn args]).
Proof.
unfold metadata_warning. destruct (decide _); simpl; eauto 12.
Qed.

(** The enqueue proper. *)
Lemma afterProjectId_spec t pid w cur :
  heap w !! t = Some cur →
  ∃ w', afterProjectId env config t pid w = Some w' ∧
    heap w' = <[t := set_projectId pid cur]> (heap w) ∧
    buffer w' = buffer w ++ [JSON_stringify env (set_projectId pid cur)] ∧
    defaultLabels w' = defaultLabels w ∧
    this_projectId w' = this_projectId w ∧
    isActive w' = isActive w ∧
    ticks w' = ticks w ∧
    pendingOperations w' = pendingOperations w ∧
    tasks w' = (if length_ge (S (length (buffer w))) (bufferSize config)
                then tasks w ++ [Immediate] else tasks w) ∧
    effects w'
    = effects w
      ++ Log info ["TraceWriter#queueTrace: buffer.size = "
                   +:+ pretty (S (length (buffer w)))]
         :: (if length_ge (S (length (buffer w))) (bufferSize config)
             then [Log info
                     ["TraceWriter#queueTrace: Trace buffer full, flushing."]]
             else []).
Proof.
intros Ht. unfold afterProjectId. rewrite Ht. simpl.
rewrite length_app, Nat.add_1_r. simpl.
eexists. split; [reflexivity|].
destruct (length_ge _ _); simpl; rewrite <- ?app_assoc; done.
Qed.

Lemma afterProjectId_Some_inv t pid w w' :
  afterProjectId env config t pid w = Some w' → ∃ cur, heap w !! t = Some cur.
Proof.
unfold afterProjectId. destruct (heap w !! t) as [cur|]; [eauto | done].
Qed.

Lemma afterProjectId_inv t pid w w' :
  afterProjectId env config t pid w = Some w' →
  ∃ cur, heap w !! t = Some cur ∧
    heap w' = <[t := set_projectId pid cur]> (heap w) ∧
    buffer w' = buffer w ++ [JSON_stringify env (set_projectId pid cur)] ∧
    defaultLabels w' = defaultLabels w ∧
    this_projectId w' = this_projectId w ∧
    isActive w' = isActive w ∧
    tasks w' = (if length_ge (S (length (buffer w))) (bufferSize config)
                then tasks w ++ [Immediate] else tasks w) ∧
    effects w'
    = effects w
      ++ Log info ["TraceWriter#queueTrace: buffer.size = "
                   +:+ pretty (S (length (buffer w)))]
         :: (if length_ge (S (length (buffer w))) (bufferSize config)
             then [Log info
                     ["TraceWriter#queueTrace: Trace buffer full, flushing."]]
             else []).
Proof.
intros H. destruct (afterProjectId_Some_inv _ _ _ _ H) as [cur Hc].
destruct (afterProjectId_spec t pid w cur Hc)
  as (w1&Hw&?&?&?&?&?&_&_&?&?).
rewrite H in Hw. injection Hw as <-. eauto 10.
Qed.

Lemma writeSpan_inv t w w' :
  writeSpan env config t w = Some w' →
  ∃ tr, heap w !! t = Some tr ∧
    defaultLabels w' = defaultLabels w ∧
    this_projectId w' = this_projectId w ∧
    isActive w' = isActive w ∧
    ((this_projectId w = NO_PROJECT_ID_TOKEN ∧
      heap w' = <[t := prepared env w tr]> (heap w) ∧
      buffer w' = buffer w ∧
      tasks w' = tasks w ++ [Then Lookup (OnQueueTrace t)] ∧
      effects w' = effects w)
     ∨
     (this_projectId w ≠ NO_PROJECT_ID_TOKEN ∧
      let tr1 := set_projectId (this_projectId w) (prepared env w tr) in
      heap w' = <[t := tr1]> (heap w) ∧
      buffer w' = buffer w ++ [JSON_stringify env tr1] ∧
      tasks w' = (if length_ge (S (length (buffer w))) (bufferSize config)
                  then tasks w ++ [Immediate] else tasks w) ∧
      effects w'
      = effects w
        ++ Log info ["TraceWriter#queueTrace: buffer.size = "
                     +:+ pretty (S (length (buffer w)))]
           :: (if length_ge (S (length (buffer w))) (bufferSize config)
               then [Log info
                       ["TraceWriter#queueTrace: Trace buffer full, flushing."]]
               else []))).
Proof.
intros H. destruct (writeSpan_Some_inv _ _ _ H) as [tr Ht]. exists tr.
split; [done|].
destruct (decide (this_projectId w = NO_PROJECT_ID_TOKEN)) as [Hp|Hp].
- destruct (writeSpan_deferred env config w t tr Ht Hp)
    as (w1&Hw&?&?&?&?&?&_&?&_&?).
  rewrite H in Hw. injection Hw as <-. split_and!; try done. by left.
- destruct (writeSpan_resolved env config w t tr Ht Hp)
    as (w1&Hw&?&?&?&?&?&_&?&_&?).
  rewrite H in Hw. injection Hw as <-. split_and!; try done. by right.
Qed.

Lemma pending_timers_cons task ts :
  pending_timers (task :: ts)
  = ((if decide (is_Timeout task) then 1 else 0) + pending_timers ts)%nat.
Proof. unfold pending_timers. rewrite filter_cons. by destruct (decide _). Qed.

Lemma pending_timers_nil : pending_timers [] = 0%nat.
Proof. done. Qed.

Lemma scheduleFlush_unfold w :
  scheduleFlush config w
  = let w1 := flushBuffer
                (logger info
                   ["TraceWriter#scheduleFlush: Performing periodic flush."] w)
    in if isActive w then spawn (Timeout (flushDelaySeconds config * 1000)) w1
       else w1.
Proof.
unfold scheduleFlush.
destruct (flushBuffer_frame
            (logger info
               ["TraceWriter#scheduleFlush: Performing periodic flush."] w))
  as (_&->&_).
done.
Qed.

End Footprints.

(** ** Rewriting the fields through the building blocks *)

Create Rewrite HintDb writer.

Section Fields.
Variable env : Env.
Variable config : TraceWriterConfig.

Lemma flushBuffer_buffer w : buffer (flushBuffer w) = [].
Proof. unfold flushBuffer. destruct (decide _) as [H|H]; [|done].
by destruct (buffer w). Qed.

Lemma flushBuffer_isActive w : isActive (flushBuffer w) = isActive w.
Proof. apply flushBuffer_frame. Qed.
Lemma flushBuffer_defaultLabels w :
  defaultLabels (flushBuffer w) = defaultLabels w.
Proof. apply flushBuffer_frame. Qed.
Lemma flushBuffer_this_projectId w :
  this_projectId (flushBuffer w) = this_projectId w.
Proof. apply flushBuffer_frame. Qed.
Lemma flushBuffer_heap w : heap (flushBuffer w) = heap w.
Proof. apply flushBuffer_frame. Qed.

Lemma flushBuffer_requests w :
  requests (effects (flushBuffer w))
  = requests (effects w)
    ++ (if decide (buffer w = []) then [] else [payload (buffer w)]).
Proof.
destruct (decide (buffer w = [])) as [H|H].
- by rewrite flushBuffer_empty, app_nil_r.
- destruct (flushBuffer_nonempty w H) as (_&->&_). by rewrite requests_app.
Qed.

Lemma flushBuffer_tasks w :
  tasks (flushBuffer w)
  = tasks w ++ (if decide (buffer w = []) then [] else [Response]).
Proof.
destruct (decide (buffer w = [])) as [H|H].
- by rewrite flushBuffer_empty, app_nil_r.
- by destruct (flushBuffer_nonempty w H) as (_&_&->).
Qed.

Lemma scheduleFlush_buffer w : buffer (scheduleFlush config w) = [].
Proof.
rewrite scheduleFlush_unfold. simpl.
destruct (isActive w); simpl; apply flushBuffer_buffer.
Qed.

Lemma scheduleFlush_isActive w :
  isActive (scheduleFlush config w) = isActive w.
Proof.
rewrite scheduleFlush_unfold. simpl.
destruct (isActive w) eqn:H; simpl; by rewrite flushBuffer_isActive.
Qed.

Lemma scheduleFlush_defaultLabels w :
  defaultLabels (scheduleFlush config w) = defaultLabels w.
Proof.
rewrite scheduleFlush_unfold. simpl.
destruct (isActive w); simpl; by rewrite flushBuffer_defaultLabels.
Qed.

Lemma scheduleFlush_this_projectId w :
  this_projectId (scheduleFlush config w) = this_projectId w.
Proof.
rewrite scheduleFlush_unfold. simpl.
destruct (isActive w); simpl; by rewrite flushBuffer_this_projectId.
Qed.

Lemma scheduleFlush_heap w : heap (scheduleFlush config w) = heap w.
Proof.
rewrite scheduleFlush_unfold. simpl.
destruct (isActive w); simpl; by rewrite flushBuffer_heap.
Qed.

Lemma scheduleFlush_requests w :
  requests (effects (scheduleFlush config w))
  = requests (effects w)
    ++ (if decide (buffer w = []) then [] else [payload (buffer w)]).
Proof.
rewrite scheduleFlush_unfold. simpl.
destruct (isActive w); simpl; rewrite flushBuffer_requests; simpl;
  by rewrite requests_Log.
Qed.

Lemma scheduleFlush_tasks w :
  tasks (scheduleFlush config w)
  = tasks w ++ (if decide (buffer w = []) then [] else [Response])
    ++ (if isActive w then [Timeout (flushDelaySeconds config * 1000)]
        else []).
Proof.
rewrite scheduleFlush_unfold. simpl.
destruct (isActive w); simpl; rewrite flushBuffer_tasks; simpl;
  by rewrite <- ?app_assoc, ?app_nil_r.
Qed.

Lemma scheduleFlush_drop w :
  occurrences drop_notice (effects (scheduleFlush config w))
  = occurrences drop_notice (effects w).
Proof.
rewrite scheduleFlush_unfold. simpl.
destruct (isActive w); simpl; rewrite flushBuffer_drop; simpl;
  unfold drop_notice; by count_notices.
Qed.

Lemma metadata_warning_buffer what err w :
  buffer (metadata_warning what err w) = buffer w.
Proof. apply metadata_warning_frame. Qed.
Lemma metadata_warning_isActive what err w :
  isActive (metadata_warning what err w) = isActive w.
Proof. apply metadata_warning_frame. Qed.
Lemma metadata_warning_this_projectId what err w :
  this_projectId (metadata_warning what err w) = this_projectId w.
Proof. apply metadata_warning_frame. Qed.
Lemma metadata_warning_heap what err w :
  heap (metadata_warning what err w) = heap w.
Proof. apply metadata_warning_frame. Qed.
Lemma metadata_warning_tasks what err w :
  tasks (metadata_warning what err w) = tasks w.
Proof. apply metadata_warning_frame. Qed.
Lemma metadata_warning_requests what err w :
  requests (effects (metadata_warning what err w)) = requests (effects w).
Proof.
destruct (metadata_warning_frame what err w) as (_&_&_&_&_&_&_&_&[->|[a ->]]);
  [done | apply requests_Log].
Qed.
Lemma metadata_warning_drop what err w :
  occurrences drop_notice (effects (metadata_warning what err w))
  = occurrences drop_notice (effects w).
Proof.
destruct (metadata_warning_frame what err w) as (_&_&_&_&_&_&_&_&[->|[a ->]]);
  [done | unfold drop_notice; by count_notices].
Qed.

Lemma buildDefaultLabels_buffer h i w :
  buffer (buildDefaultLabels env config h i w) = buffer w.
Proof. apply buildDefaultLabels_frame. Qed.
Lemma buildDefaultLabels_isActive h i w :
  isActive (buildDefaultLabels env config h i w) = isActive w.
Proof. apply buildDefaultLabels_frame. Qed.
Lemma buildDefaultLabels_this_projectId h i w :
  this_projectId (buildDefaultLabels env config h i w) = this_projectId w.
Proof. apply buildDefaultLabels_frame. Qed.
Lemma buildDefaultLabels_heap h i w :
  heap (buildDefaultLabels env config h i w) = heap w.
Proof. apply buildDefaultLabels_frame. Qed.
Lemma buildDefaultLabels_tasks h i w :
  tasks (buildDefaultLabels env config h i w) = tasks w.
Proof. apply buildDefaultLabels_frame. Qed.
Lemma buildDefaultLabels_effects h i w :
  effects (buildDefaultLabels env config h i w) = effects w.
Proof. apply buildDefaultLabels_frame. Qed.

Lemma on_response_effects err st w :
  ∃ lvl rest,
    on_response err st w = logger lvl ["TraceWriter#publish: " +:+ rest] w.
Proof.
unfold on_response. destruct err as [e|].
- by exists error,
    ("Received error status code "
     +:+ match st with
         | Some c => if decide (c = 0) then "unknown" else pretty c
         | None => "unknown"
         end +:+ ". Original error: " +:+ err_text e).
- by exists info,
    ("Published w/ status code: "
     +:+ match st with
         | Some c => if decide (c = 0) then "unknown" else pretty c
         | None => "unknown"
         end).
Qed.

Lemma countdown_requests i w w' :
  countdown i w = Some w' → requests (effects w') = requests (effects w).
Proof.
intros (_&_&_&_&_&_&_&[->| ->])%countdown_inv; [done|].
rewrite requests_app. simpl. apply app_nil_r.
Qed.

Lemma countdown_drop i w w' :
  countdown i w = Some w' →
  occurrences drop_notice (effects w') = occurrences drop_notice (effects w).
Proof.
intros (_&_&_&_&_&_&_&[->| ->])%countdown_inv; [done|].
unfold drop_notice. by count_notices.
Qed.

End Fields.

#[export] Hint Rewrite
  flushBuffer_buffer flushBuffer_isActive flushBuffer_defaultLabels
  flushBuffer_this_projectId flushBuffer_heap flushBuffer_requests
  flushBuffer_tasks flushBuffer_drop
  scheduleFlush_buffer scheduleFlush_isActive scheduleFlush_defaultLabels
  scheduleFlush_this_projectId scheduleFlush_heap scheduleFlush_requests
  scheduleFlush_tasks scheduleFlush_drop
  metadata_warning_buffer metadata_warning_isActive
  metadata_warning_this_projectId metadata_warning_heap
  metadata_warning_tasks metadata_warning_requests metadata_warning_drop
  buildDefaultLabels_buffer buildDefaultLabels_isActive
  buildDefaultLabels_this_projectId buildDefaultLabels_heap
  buildDefaultLabels_tasks buildDefaultLabels_effects
  requests_Log pending_timers_app pending_timers_cons pending_timers_nil
  : writer.

(** Normalize the fields of a world built from the building blocks. *)
Ltac writer_simpl :=
  repeat (progress (autorewrite with writer; simpl; repeat case_decide;
                    simpl in *; try done)).

(** Case analysis on the task that runs and its outcome. *)
Ltac run_task_cases Hr :=
  match type of Hr with
  | run_task _ _ ?task ?o _ = Some _ =>
      destruct task as [[?pid|] [?i|?t]|?i|?i ?h|?ms| | |?ms],
               o as [?data|?err| |?err ?st];
      simpl in Hr; try discriminate Hr; try case_decide; simplify_eq;
      unfold fulfil, reject, initialize_fulfilled, initialize_rejected,
             queueTrace_rejected, labels_ready in *
  end.

(** ** After [stop] (claim C2) *)

(** C2, as worded, fails: the timer armed by [initialize] still fires after
    [stop] and publishes the trace the buffer holds. *)
Lemma C2_armed_timer_flushes_after_stop :
  ¬ no_flush_after_stop Sample.env C2_example.config C2_example.start.
Proof.
intros H.
pose proof (H [Run 0 Elapsed] C2_example.stopped C2_example.later) as Hbad.
do 2 (specialize (Hbad ltac:(vm_compute; reflexivity))).
vm_compute in Hbad. discriminate.
Qed.

Section Stopped.
Variable env : Env.
Variable config : TraceWriterConfig.

Lemma run_task_stopped task o w w' :
  isActive w = false →
  run_task env config task o w = Some w' →
  isActive w' = false ∧ pending_timers (tasks w') = pending_timers (tasks w).
Proof.
intros Ha Hr. run_task_cases Hr;
  try apply countdown_inv in Hr as (_&_&->&_&_&->&_);
  try apply afterProjectId_inv in Hr as (cur&_&_&_&_&_&->&->&_);
  try destruct (on_response_effects err st w) as (lvl&rest&->);
  try destruct (length_ge _ _);
  writer_simpl; rewrite ?Ha; writer_simpl; split; (done || lia).
Qed.

Lemma step_stopped e w w' :
  isActive w = false →
  step env config e w = Some w' →
  isActive w' = false ∧
  (pending_timers (tasks w')
   + match e with
     | Run n Elapsed => if fires_timer n w then 1 else 0
     | _ => 0
     end)%nat
  = pending_timers (tasks w).
Proof.
intros Ha Hs. destruct e as [|t| |t v| |n o]; simpl in Hs.
- injection Hs as <-. unfold initialize. writer_simpl. split; [done | lia].
- apply writeSpan_inv in Hs as (tr&_&_&_&->&[(_&_&_&->&_)|(_&_&_&->&_)]);
    try destruct (length_ge _ _); writer_simpl; split; (done || lia).
- injection Hs as <-. split; [done | simpl; lia].
- injection Hs as <-. split; [done | simpl; lia].
- injection Hs as <-. unfold unhandledException.
  writer_simpl; split; (done || lia).
- unfold fires_timer. destruct (tasks w !! n) as [task|] eqn:Hn; [|done].
  simpl in Hs. pose proof (pending_timers_delete _ _ _ Hn) as Hdel.
  assert (is_Timeout task → o = Elapsed) as Ho.
  { destruct task, o; simpl in *; done. }
  apply run_task_stopped in Hs as [-> Hs]; [|done]. simpl in Hs.
  split; [done|]. rewrite Hs.
  destruct task; simpl in *; try rewrite Ho by done; try lia;
    destruct o; lia.
Qed.

End Stopped.

Lemma exec_stopped env config es w w' :
  isActive w = false →
  exec env config es w = Some w' →
  isActive w' = false ∧
  (pending_timers (tasks w') + fired_timers env config es w)%nat
  = pending_timers (tasks w).
Proof.
revert w. induction es as [|e es IH]; intros w Ha He; simpl in *.
- injection He as <-. split; [done | lia].
- destruct (step env config e w) as [w1|] eqn:Hs; [|done]. simpl in He.
  destruct (step_stopped env config e w w1 Ha Hs) as [Ha1 H1].
  destruct (IH w1 Ha1 He) as [Ha' H']. split; [done|]. lia.
Qed.

(** C2 (amended): after [stop] the writer stays inactive and no timer is
    armed any more: over any run that follows, the timers still pending and
    the timers that fired add up to the timers that were pending when [stop]
    was called. So each timer armed before [stop] fires, and flushes, at most
    once more, and the periodic flush ends there; flushes by other triggers
    are not excluded. *)
Theorem C2_no_timer_is_armed_after_stop (env : Env)
    (config : TraceWriterConfig) (es : list Event) (w w' : World) :
  exec env config es (stop w) = Some w' →
  isActive w' = false ∧
  (pending_timers (tasks w') + fired_timers env config es (stop w))%nat
  = pending_timers (tasks w).
Proof.
intros He. by destruct (exec_stopped env config es (stop w) w' eq_refl He).
Qed.

Lemma C2_no_timer_is_armed_after_stop_witness :
  exec Sample.env C2_example.config [Run 0 Elapsed] (stop C2_example.start)
  = Some C2_example.later
  ∧ isActive C2_example.later = false
  ∧ pending_timers (tasks C2_example.later) = 0%nat.
Proof.
assert (exec Sample.env C2_example.config [Run 0 Elapsed]
             (stop C2_example.start)
        = Some C2_example.later) as H by (vm_compute; reflexivity).
split; [exact H|].
destruct (C2_no_timer_is_armed_after_stop _ _ _ _ _ H) as [Ha Hc].
split; [exact Ha|].
assert (pending_timers (tasks C2_example.start) = 1%nat) as H3
  by (vm_compute; reflexivity).
assert (fired_timers Sample.env C2_example.config [Run 0 Elapsed]
                     (stop C2_example.start) = 1%nat) as H4
  by (vm_compute; reflexivity).
rewrite H3, H4 in Hc. lia.
Defined.

(** ** Dropped traces (claim C7) *)

(** C7, as worded, fails: two traces dropped, two notices. *)
Lemma C7_two_dropped_traces_two_notices :
  ¬ one_drop_notice_in_total Sample.env C7_example.config
      C7_example.start C7_example.run.
Proof.
intros H. specialize (H C7_example.final ltac:(vm_compute; reflexivity)).
vm_compute in H. discriminate.
Qed.

Section Dropping.
Variable env : Env.
Variable config : TraceWriterConfig.

Lemma afterProjectId_drop t pid w w' :
  afterProjectId env config t pid w = Some w' →
  occurrences drop_notice (effects w') = occurrences drop_notice (effects w).
Proof.
intros (cur&_&_&_&_&_&_&_&->)%afterProjectId_inv.
unfold drop_notice. destruct (length_ge _ _); by count_notices.
Qed.

Lemma run_task_drop task o w w' :
  run_task env config task o w = Some w' →
  occurrences drop_notice (effects w')
  = (occurrences drop_notice (effects w)
     + match task, o with
       | Then Lookup (OnQueueTrace _), Rejected _ => 1
       | _, _ => 0
       end)%nat.
Proof.
intros Hr. run_task_cases Hr;
  try apply countdown_drop in Hr;
  try apply afterProjectId_drop in Hr;
  try destruct (on_response_effects err st w) as (lvl&rest&->);
  rewrite ?Hr; writer_simpl; unfold drop_notice; count_notices; try lia.
Qed.

Lemma step_drop e w w' :
  step env config e w = Some w' →
  occurrences drop_notice (effects w')
  = (occurrences drop_notice (effects w)
     + match e with
       | Run n (Rejected _) => if drops_trace n w then 1 else 0
       | _ => 0
       end)%nat.
Proof.
intros Hs. destruct e as [|t| |t v| |n o]; simpl in Hs.
- injection Hs as <-. simpl. lia.
- apply writeSpan_inv in Hs as (tr&_&_&_&_&[(_&_&_&_&->)|(_&_&_&_&->)]);
    [lia|].
  unfold drop_notice. destruct (length_ge _ _); count_notices; lia.
- injection Hs as <-. simpl. lia.
- injection Hs as <-. simpl. lia.
- injection Hs as <-. unfold unhandledException. writer_simpl; lia.
- unfold drops_trace. destruct (tasks w !! n) as [task|] eqn:Hn; [|done].
  simpl in Hs. apply run_task_drop in Hs. rewrite Hs. simpl.
  destruct task as [[?|] [?|?]| | | | | |], o; lia.
Qed.

End Dropping.

(** C7 (amended): a trace whose lookup of the project id fails is dropped
    (its enqueue never runs: buffer and trace objects stay as they are) with
    one informational entry of its own; over any run the number of such
    entries grows by the number of traces dropped. *)
Theorem C7_one_notice_per_dropped_trace (env : Env)
    (config : TraceWriterConfig) :
  (∀ w n t err,
     tasks w !! n = Some (Then Lookup (OnQueueTrace t)) →
     ∃ w', step env config (Run n (Rejected err)) w = Some w' ∧
           buffer w' = buffer w ∧ heap w' = heap w ∧
           tasks w' = delete n (tasks w) ∧
           effects w' = effects w ++ [drop_notice]) ∧
  (∀ es w w',
     exec env config es w = Some w' →
     occurrences drop_notice (effects w')
     = (occurrences drop_notice (effects w) + dropped env config es w)%nat).
Proof.
split.
- intros w n t err H. eexists. split; [by rewrite (step_Run _ _ _ _ _ _ H)|].
  done.
- intros es. induction es as [|e es IH]; intros w w' He; simpl in *.
  + injection He as <-. lia.
  + destruct (step env config e w) as [w1|] eqn:Hs; [|done]. simpl in He.
    rewrite (IH _ _ He), (step_drop _ _ _ _ _ Hs). lia.
Qed.

Lemma C7_one_notice_per_dropped_trace_witness :
  exec Sample.env C7_example.config C7_example.run C7_example.start
  = Some C7_example.final
  ∧ occurrences drop_notice (effects C7_example.final) = 2%nat.
Proof.
assert (exec Sample.env C7_example.config C7_example.run C7_example.start
        = Some C7_example.final) as H by (vm_compute; reflexivity).
split; [exact H|].
destruct (C7_one_notice_per_dropped_trace Sample.env C7_example.config)
  as [_ Hc].
rewrite (Hc _ _ _ H). vm_compute. reflexivity.
Defined.

(** ** Failed identity resolution (claim C6) *)

(** C6, as worded, fails: the lookup made by [initialize] fails and its
    callback gets the error, yet a trace written afterwards is published,
    because [queueTrace] starts a new lookup and that one is answered. *)
Lemma C6_later_lookup_publishes_the_trace :
  ¬ failed_identity_publishes_nothing Sample.env C6_example.config
      C6_example.heap0.
Proof.
intros H.
destruct (H C6_example.run C6_example.final 0%nat Sample.failure) as [_ Hr].
- vm_compute. reflexivity.
- apply (bool_decide_unpack _). vm_compute. exact I.
- vm_compute in Hr. discriminate.
Qed.

Section Unavailable.
Variable env : Env.
Variable config : TraceWriterConfig.

Lemma run_task_without_identity task o w w' :
  without_identity w →
  awaits_lookup task →
  match task, o with
  | Then Lookup _, Fulfilled _ => False
  | _, _ => True
  end →
  run_task env config task o w = Some w' →
  without_identity w'.
Proof.
intros (Hp&Hb&Hr&Ht) Ha Ho Hs. unfold without_identity.
run_task_cases Hs; simpl in *; try done;
  try apply countdown_inv in Hs as (->&_&_&->&_&->&_&[->| ->]);
  try destruct (on_response_effects err st w) as (lvl&rest&->);
  rewrite ?requests_app;
  writer_simpl; rewrite ?Hb, ?Hr; writer_simpl;
  rewrite ?Forall_app; repeat split; try done;
  try destruct (isActive w); repeat constructor.
Qed.

Lemma step_without_identity e w w' :
  without_identity w →
  match e with
  | Run n (Fulfilled _) => ∀ r, tasks w !! n ≠ Some (Then Lookup r)
  | _ => True
  end →
  step env config e w = Some w' →
  without_identity w'.
Proof.
intros HJ Ho Hs. pose proof HJ as (Hp&Hb&Hr&Ht). unfold without_identity.
destruct e as [|t| |t v| |n o]; simpl in Hs.
- injection Hs as <-. unfold initialize, getProjectId. writer_simpl.
  rewrite !Forall_app. repeat split; try done; repeat constructor.
- apply writeSpan_inv in Hs as (tr&_&_&->&_&[(_&_&->&->&->)|(?&_)]); [|done].
  rewrite Forall_app. repeat split; try done; repeat constructor.
- injection Hs as <-. done.
- injection Hs as <-. done.
- injection Hs as <-. unfold unhandledException.
  rewrite (flushBuffer_empty w Hb). writer_simpl.
  rewrite Forall_app. repeat split; try done; repeat constructor.
- destruct (tasks w !! n) as [task|] eqn:Hn; [|done]. simpl in Hs.
  eapply run_task_without_identity; [| | |exact Hs].
  + repeat split; try done. simpl. by apply Forall_delete.
  + eapply Forall_lookup_1; [exact Ht | exact Hn].
  + destruct task as [[?|] ?| | | | | |], o; try done. by eapply Ho.
Qed.

Lemma exec_without_identity es w w' :
  without_identity w →
  identity_unavailable env config es w →
  exec env config es w = Some w' →
  without_identity w'.
Proof.
revert w. induction es as [|e es IH]; intros w HJ Hu He; simpl in *.
- by injection He as <-.
- destruct (step env config e w) as [w1|] eqn:Hs; [|done]. simpl in He.
  destruct Hu as [Ho Hu].
  eapply IH; [|by apply Hu|done].
  by eapply step_without_identity.
Qed.

Lemma fresh_without_identity h :
  truthy (cfg_projectId config) = None → without_identity (fresh config h).
Proof.
intros H. unfold without_identity, fresh. simpl. rewrite H. simpl.
repeat split; constructor.
Qed.

End Unavailable.

(** C6 (amended): for a writer constructed without a project id, if every
    lookup of the project id fails, then the buffer stays empty and no
    request is ever made, whatever is written and whenever; and when the
    lookup made by a call of [initialize] fails, the callback given to that
    call is invoked with the error. *)
Theorem C6_nothing_is_published_without_identity (env : Env)
    (config : TraceWriterConfig) (h : gmap loc Trace) (w0 : World)
    (es : list Event) (w : World) :
  truthy (cfg_projectId config) = None →
  constructor config h = inr w0 →
  identity_unavailable env config es w0 →
  exec env config es w0 = Some w →
  buffer w = [] ∧ requests (effects w) = [] ∧
  ∀ n p i err,
    tasks w !! n = Some (Then p (OnInitialize i)) →
    p = Lookup ∧
    ∃ w' entry,
      step env config (Run n (Rejected err)) w = Some w' ∧
      effects w' = effects w ++ [Log error entry; Callback i (Some err)] ∧
      buffer w' = [] ∧ requests (effects w') = [].
Proof.
intros Hc ->%constructor_inr Hu He.
destruct (exec_without_identity env config es _ w
            (fresh_without_identity config h Hc) Hu He) as (Hp&Hb&Hr&Ht).
split; [done|]. split; [done|].
intros n p i err Hn.
pose proof (Forall_lookup_1 _ _ _ _ Ht Hn) as Ha.
destruct p as [pid|]; [done|]. split; [done|].
eexists _, _. split; [by rewrite (step_Run _ _ _ _ _ _ Hn)|].
simpl. rewrite <- app_assoc. split; [done|]. split; [done|].
rewrite requests_app, Hr. done.
Qed.

Lemma C6_nothing_is_published_without_identity_witness :
  exec Sample.env C6_example.config C6_example.run_unavailable
       (fresh C6_example.config C6_example.heap0)
  = Some C6_example.final_unavailable
  ∧ buffer C6_example.final_unavailable = []
  ∧ requests (effects C6_example.final_unavailable) = [].
Proof.
assert (exec Sample.env C6_example.config C6_example.run_unavailable
             (fresh C6_example.config C6_example.heap0)
        = Some C6_example.final_unavailable) as He
  by (vm_compute; reflexivity).
assert (identity_unavailable Sample.env C6_example.config
          C6_example.run_unavailable
          (fresh C6_example.config C6_example.heap0)) as Hu.
{ simpl. repeat split; try done; intros; simplify_eq; simpl; try done. }
assert (constructor C6_example.config C6_example.heap0
        = inr (fresh C6_example.config C6_example.heap0)) as Hnew
  by (vm_compute; reflexivity).
destruct (C6_nothing_is_published_without_identity
            Sample.env C6_example.config C6_example.heap0 _
            C6_example.run_unavailable C6_example.final_unavailable
            eq_refl Hnew Hu He) as (Hb&Hr&_).
split; [exact He|]. split; [exact Hb | exact Hr].
Defined.

(** ** Closed spans in the buffer (claim C5) *)

(** C5, as worded, fails: while the project id is not known the trace is
    serialized when the lookup is answered; a child span that the host has
    started on the trace object since [writeSpan] returned is serialized with
    its empty endTime. *)
Lemma C5_span_opened_before_the_enqueue :
  ¬ enqueues_closed Sample.env C5_example.config C5_example.run_with_child
      C5_example.start.
Proof.
intros [_ H].
specialize (H C5_example.written ltac:(vm_compute; reflexivity)).
destruct H as [_ H].
specialize (H C5_example.grown ltac:(vm_compute; reflexivity)).
destruct H as [H _].
specialize (H (set_projectId "0" C5_example.with_child)
              ltac:(vm_compute; reflexivity)).
inversion H as [|? ? _ H2]. inversion H2 as [|? ? H3 _]. by apply H3.
Qed.

Section Enqueues.
Variable env : Env.
Variable config : TraceWriterConfig.

(** [enqueues] names the entry a step appends. *)
Lemma step_enqueues e w w' :
  step env config e w = Some w' →
  buffer w'
  = buffer w ++ from_option (fun tr => [JSON_stringify env tr]) []
                            (enqueues env e w)
  ∨ (enqueues env e w = None ∧ buffer w' = []).
Proof.
intros Hs. destruct e as [|t| |t v| |n o]; simpl in Hs.
- injection Hs as <-. left. simpl. by rewrite app_nil_r.
- left.
  apply writeSpan_inv in Hs as (tr&Ht&_&_&_&[(Hp&_&->&_)|(Hp&_&->&_)]);
    simpl; rewrite Ht; simpl.
  + rewrite decide_False by (intros H; by apply H). simpl.
    by rewrite app_nil_r.
  + by rewrite decide_True.
- injection Hs as <-. left. simpl. by rewrite app_nil_r.
- injection Hs as <-. left. simpl. by rewrite app_nil_r.
- injection Hs as <-. simpl. case_decide; [right | left].
  + split; [done|]. unfold unhandledException. by writer_simpl.
  + by rewrite app_nil_r.
- unfold enqueues. destruct (tasks w !! n) as [task|] eqn:Hn; [|done].
  simpl in Hs.
  run_task_cases Hs; simpl in *;
    try (apply countdown_inv in Hs as (->&_));
    try (apply afterProjectId_inv in Hs as (cur&Hc&_&->&_);
         simpl in Hc; rewrite Hc; by left);
    try match goal with
        | |- context [on_response ?e ?s ?w0] =>
            destruct (on_response_effects e s w0) as (lvl&rest&->)
        end;
    writer_simpl;
    first [ by right | left; by rewrite app_nil_r ].
Qed.

End Enqueues.

Section Closed.
Variable env : Env.
Variable config : TraceWriterConfig.
Hypothesis clock : ∀ m, toISOString env m ≠ EmptyString.

Lemma closed_set_projectId pid tr : closed tr → closed (set_projectId pid tr).
Proof. done. Qed.

Lemma waits_closed_insert h t v task :
  closed v → waits_closed h task → waits_closed (<[t := v]> h) task.
Proof.
intros Hv. destruct task as [p [i|t']| | | | | |]; simpl; try done.
intros (tr&Ht&Hc). destruct (decide (t = t')) as [->|Hne].
- exists v. by rewrite lookup_insert_eq.
- exists tr. by rewrite lookup_insert_ne.
Qed.

Lemma Forall_waits_closed_insert h t v ts :
  closed v →
  Forall (waits_closed h) ts → Forall (waits_closed (<[t := v]> h)) ts.
Proof.
intros Hv H. eapply Forall_impl; [exact H|].
intros task. by apply waits_closed_insert.
Qed.

Lemma run_task_closed task o w w' :
  buffer_closed env w →
  waits_closed (heap w) task →
  run_task env config task o w = Some w' →
  buffer_closed env w'.
Proof.
intros [Hb Ht] Hw Hs. unfold buffer_closed.
run_task_cases Hs; simpl in *;
  try apply countdown_inv in Hs as (->&_&_&_&->&->&_);
  try (apply afterProjectId_inv in Hs as (cur&Hc&->&->&_&_&_&->&_);
       simpl in Hc; destruct Hw as (tr&Htr&Hcl);
       assert (cur = tr) as -> by congruence);
  try destruct (on_response_effects err st w) as (lvl&rest&->);
  writer_simpl;
  try destruct (length_ge _ _); try destruct (isActive w);
  rewrite ?Forall_app; repeat split; try done;
  try (apply Forall_waits_closed_insert; done);
  repeat constructor; try done;
  eexists; (split; [|reflexivity]); exact Hcl.
Qed.

Lemma step_closed e w w' :
  buffer_closed env w →
  match e with
  | Assign t v => deferred t w → closed v
  | _ => True
  end →
  step env config e w = Some w' →
  buffer_closed env w'.
Proof.
intros HI Ho Hs. pose proof HI as [Hb Ht]. unfold buffer_closed.
destruct e as [|t| |t v| |n o]; simpl in Hs.
- injection Hs as <-. unfold initialize. writer_simpl.
  rewrite !Forall_app. repeat split; try done; repeat constructor.
- apply writeSpan_inv in Hs
    as (tr&_&_&_&_&[(_&->&->&->&_)|(_&->&->&->&_)]);
    pose proof (prepared_closed env w tr clock) as Hprep;
    try destruct (length_ge _ _);
    rewrite ?Forall_app; repeat split; try done;
    try (apply Forall_waits_closed_insert; done);
    repeat constructor; simpl; rewrite ?lookup_insert_eq;
    eexists; (split; [reflexivity | exact Hprep])
             || (split; [|reflexivity]; exact Hprep).
- injection Hs as <-. done.
- injection Hs as <-. simpl. split; [done|].
  apply Forall_forall. intros task Hin.
  pose proof (proj1 (Forall_forall _ _) Ht task Hin) as Hw.
  destruct task as [p [i|t']| | | | | |]; simpl in *; try done.
  destruct (decide (t = t')) as [->|Hne].
  + exists v. rewrite lookup_insert_eq. split; [done|].
    apply Ho. by exists p.
  + by rewrite lookup_insert_ne.
- injection Hs as <-. unfold unhandledException. writer_simpl;
    rewrite ?Forall_app; repeat split; try done; repeat constructor.
- destruct (tasks w !! n) as [task|] eqn:Hn; [|done]. simpl in Hs.
  eapply run_task_closed; [| |exact Hs].
  + split; [done|]. simpl. by apply Forall_delete.
  + simpl. eapply Forall_lookup_1; [exact Ht | exact Hn].
Qed.

Lemma exec_closed es w w' :
  buffer_closed env w →
  undisturbed env config es w →
  exec env config es w = Some w' →
  buffer_closed env w'.
Proof.
revert w. induction es as [|e es IH]; intros w HI Hu He; simpl in *.
- by injection He as <-.
- destruct (step env config e w) as [w1|] eqn:Hs; [|done]. simpl in He.
  destruct Hu as [Ho Hu].
  eapply IH; [|by apply Hu|done].
  by eapply step_closed.
Qed.

Lemma enqueues_closed_here e w tr :
  buffer_closed env w → enqueues env e w = Some tr → closed tr.
Proof.
intros [_ Ht] He. destruct e as [|t| |t v| |n o]; simpl in He; try done.
- case_decide; [|done]. destruct (heap w !! t) as [tr0|]; [|done].
  simpl in He. injection He as <-.
  by apply closed_set_projectId, prepared_closed.
- destruct o as [pid| | |]; try done.
  destruct (tasks w !! n) as [[p [i|t]| | | | | |]|] eqn:Hn; try done.
  destruct (Forall_lookup_1 _ _ _ _ Ht Hn) as (tr0&Htr0&Hcl).
  rewrite Htr0 in He. simpl in He. by injection He as <-.
Qed.

Lemma run_enqueues_closed es w :
  buffer_closed env w →
  undisturbed env config es w →
  enqueues_closed env config es w.
Proof.
revert w. induction es as [|e es IH]; intros w HI Hu; simpl; [done|].
destruct Hu as [Ho Hu]. split.
- intros tr. by apply enqueues_closed_here.
- intros w' Hs. apply IH; [by eapply step_closed | by apply Hu].
Qed.

End Closed.

Lemma undisturbed_no_Assign env config es w :
  Forall (fun e => ¬ is_Assign e) es → undisturbed env config es w.
Proof.
intros H. revert w. induction H as [|e es He _ IH]; intros w; simpl; [done|].
split; [|auto]. by destruct e.
Qed.

(** C5 (amended): with a clock that never reads as the empty string,
    [writeSpan] leaves every span of the trace object closed; and in every
    run from construction in which the host does not reopen a trace object
    (give it a span with an empty endTime) while its enqueue is waiting for
    the project id, every trace that is serialized into the buffer has a
    non-empty endTime on all its spans, and so every entry of the buffer is
    the serialization of such a trace. The entry a step appends is the
    serialization of the trace [enqueues] names. *)
Theorem C5_buffered_traces_are_closed (env : Env)
    (config : TraceWriterConfig) :
  (∀ m, toISOString env m ≠ EmptyString) →
  (∀ w t w1,
     writeSpan env config t w = Some w1 →
     ∃ tr1, heap w1 !! t = Some tr1 ∧ closed tr1) ∧
  (∀ h w0 es,
     constructor config h = inr w0 →
     undisturbed env config es w0 →
     enqueues_closed env config es w0 ∧
     ∀ w, exec env config es w0 = Some w →
          Forall (fun entry => ∃ tr, closed tr ∧ entry = JSON_stringify env tr)
                 (buffer w)) ∧
  (∀ e w w',
     step env config e w = Some w' →
     buffer w'
     = buffer w ++ from_option (fun tr => [JSON_stringify env tr]) []
                               (enqueues env e w)
     ∨ (enqueues env e w = None ∧ buffer w' = [])).
Proof.
intros Hclock. split_and!.
- intros w t w1 Hs.
  destruct (writeSpan_Some_inv _ _ _ _ _ Hs) as [tr Ht].
  destruct (writeSpan_heap env config w t tr w1 Ht Hs) as [-> _].
  eexists. split; [apply lookup_insert_eq|].
  by apply closed_set_projectId, prepared_closed.
- intros h w0 es ->%constructor_inr Hu.
  assert (buffer_closed env (fresh config h)) as HI by (split; constructor).
  split; [by apply run_enqueues_closed|].
  intros w He.
  by eapply (exec_closed env config Hclock es (fresh config h) w).
- apply step_enqueues.
Qed.

Lemma C5_buffered_traces_are_closed_witness :
  exec Sample.env C5_example.config C5_example.run C5_example.start
  = Some C5_example.final
  ∧ length (buffer C5_example.final) = 2%nat
  ∧ Forall (closed_entry Sample.env) (buffer C5_example.final).
Proof.
assert (∀ m, toISOString Sample.env m ≠ EmptyString) as Hclock
  by (intros m; simpl; discriminate).
assert (exec Sample.env C5_example.config C5_example.run C5_example.start
        = Some C5_example.final) as He by (vm_compute; reflexivity).
split; [exact He|]. split; [vm_compute; reflexivity|].
destruct (C5_buffered_traces_are_closed Sample.env C5_example.config Hclock)
  as (_&H&_).
destruct (H C5_example.heap0 C5_example.start C5_example.run) as [_ Hb].
- vm_compute. reflexivity.
- apply undisturbed_no_Assign. unfold C5_example.run.
  repeat constructor; simpl; tauto.
- apply Hb. exact He.
Defined.

(** ** Buffer entries are snapshots (claim C9) *)

(** C9, as worded, fails: while the project id is not known the trace is
    serialized when the lookup is answered, not when [writeSpan] returns, so
    a write to the object in between shows in the published body. *)
Lemma C9_deferred_enqueue_sees_later_writes :
  ¬ snapshot_at_return Sample.env C9_example.config C9_example.start 0%nat.
Proof.
intros H.
pose proof (H C9_example.written C9_example.edited C9_example.run
              C9_example.untouched C9_example.touched) as Hbad.
specialize (Hbad ltac:(vm_compute; reflexivity)).
specialize (Hbad ltac:(repeat constructor)).
do 2 (specialize (Hbad ltac:(vm_compute; reflexivity))).
vm_compute in Hbad. discriminate.
Qed.

Section Snapshots.
Variable env : Env.
Variable config : TraceWriterConfig.

Lemma run_task_buffer task o w w' :
  run_task env config task o w = Some w' →
  (∃ new, buffer w' = buffer w ++ new ∧
          requests (effects w') = requests (effects w)) ∨
  (buffer w ≠ [] ∧ buffer w' = [] ∧
   requests (effects w') = requests (effects w) ++ [payload (buffer w)]).
Proof.
intros Hs.
run_task_cases Hs; simpl in *;
  try (pose proof (countdown_requests _ _ _ Hs) as Hreq;
       apply countdown_inv in Hs as (Hbuf&_); rewrite Hbuf, Hreq);
  try (apply afterProjectId_inv in Hs as (cur&_&_&->&_&_&_&_&->);
       left; eexists; split; [reflexivity|];
       destruct (length_ge _ _); by rewrite requests_app, ?app_nil_r);
  try destruct (on_response_effects err st w) as (lvl&rest&->);
  rewrite ?requests_app; writer_simpl;
  first [ by (right; rewrite ?app_nil_r)
        | left; exists []; by rewrite ?app_nil_r
        | left; exists []; rewrite ?app_nil_r; split; congruence ].
Qed.

Lemma step_buffer e w w' :
  step env config e w = Some w' →
  (∃ new, buffer w' = buffer w ++ new ∧
          requests (effects w') = requests (effects w) ∧
          (is_Assign e → new = [])) ∨
  (buffer w ≠ [] ∧ buffer w' = [] ∧
   requests (effects w') = requests (effects w) ++ [payload (buffer w)]).
Proof.
intros Hs. destruct e as [|t| |t v| |n o]; simpl in Hs.
- injection Hs as <-. left. exists []. by rewrite app_nil_r.
- left.
  apply writeSpan_inv in Hs as (tr&_&_&_&_&[(_&_&->&_&->)|(_&_&->&_&->)]).
  + exists []. by rewrite app_nil_r.
  + eexists. split; [reflexivity|]. split; [|done].
    destruct (length_ge _ _); by rewrite requests_app, ?app_nil_r.
- injection Hs as <-. left. exists []. by rewrite app_nil_r.
- injection Hs as <-. left. exists []. by rewrite app_nil_r.
- injection Hs as <-. unfold unhandledException. writer_simpl;
    rewrite ?requests_app; writer_simpl;
    first [ by (right; rewrite ?app_nil_r)
          | left; exists []; by rewrite ?app_nil_r
          | left; exists []; rewrite ?app_nil_r; split; congruence ].
- destruct (tasks w !! n) as [task|] eqn:Hn; [|done]. simpl in Hs.
  apply run_task_buffer in Hs as [(new&?&?)|?]; [left|by right].
  exists new. done.
Qed.

End Snapshots.

(** C9 (amended): an entry of the buffer is the serialization of the trace
    object at the moment of its enqueue, which is inside [writeSpan] when the
    project id is known and is the moment the lookup is answered otherwise
    (writes to the object before that moment are serialized); from then on no
    step changes it: a step either appends to the buffer, making no request,
    or empties a non-empty buffer into exactly one request carrying the
    entries as they were, and a write by the host to a trace object leaves
    the buffer as it is. *)
Theorem C9_entries_are_snapshots_taken_at_enqueue (env : Env)
    (config : TraceWriterConfig) :
  (∀ w t tr,
     heap w !! t = Some tr →
     this_projectId w ≠ NO_PROJECT_ID_TOKEN →
     ∃ w1 tr1, writeSpan env config t w = Some w1 ∧
               heap w1 !! t = Some tr1 ∧
               buffer w1 = buffer w ++ [JSON_stringify env tr1]) ∧
  (∀ w t tr,
     heap w !! t = Some tr →
     this_projectId w = NO_PROJECT_ID_TOKEN →
     ∃ w1, writeSpan env config t w = Some w1 ∧
           buffer w1 = buffer w ∧
           tasks w1 = tasks w ++ [Then Lookup (OnQueueTrace t)]) ∧
  (∀ w n t pid cur,
     tasks w !! n = Some (Then Lookup (OnQueueTrace t)) →
     heap w !! t = Some cur →
     ∃ w', step env config (Run n (Fulfilled pid)) w = Some w' ∧
           buffer w'
           = buffer w ++ [JSON_stringify env (set_projectId pid cur)]) ∧
  (∀ e w w',
     step env config e w = Some w' →
     (∃ new, buffer w' = buffer w ++ new ∧
             requests (effects w') = requests (effects w) ∧
             (is_Assign e → new = [])) ∨
     (buffer w ≠ [] ∧ buffer w' = [] ∧
      requests (effects w') = requests (effects w) ++ [payload (buffer w)])).
Proof.
split_and!.
- intros w t tr Ht Hp.
  destruct (writeSpan_resolved env config w t tr Ht Hp) as (w1&Hw&Hh&Hb&_).
  eexists _, _. split; [exact Hw|]. split; [|exact Hb].
  rewrite Hh. apply lookup_insert_eq.
- intros w t tr Ht Hp.
  destruct (writeSpan_deferred env config w t tr Ht Hp)
    as (w1&Hw&_&Hb&_&_&_&_&Hts&_).
  by exists w1.
- intros w n t pid cur Hn Hc.
  rewrite (step_Run _ _ _ _ _ _ Hn). simpl.
  destruct (afterProjectId_spec env config t pid
              (set_this_projectId pid (set_tasks (delete n (tasks w)) w))
              cur Hc) as (w'&Hw&_&Hb&_).
  by exists w'.
- apply step_buffer.
Qed.

Lemma C9_entries_are_snapshots_taken_at_enqueue_witness :
  ∃ w', step Sample.env C9_example.config
             (Assign 0%nat C9_example.edited) C9_example.written = Some w'
        ∧ buffer w' = buffer C9_example.written.
Proof.
destruct (C9_entries_are_snapshots_taken_at_enqueue
            Sample.env C9_example.config) as (_&_&_&H).
eexists. split; [reflexivity|].
destruct (H (Assign 0%nat C9_example.edited) C9_example.written _ eq_refl)
  as [(new&Hb&_&Hn)|(Hne&_)].
- rewrite Hb, (Hn I). apply app_nil_r.
- exfalso. apply Hne. reflexivity.
Defined.

(** ** In-place mutation by [writeSpan] (claim C10) *)

(** C10: [writeSpan] changes the caller's trace object itself and no other:
    afterwards each of its spans is the span it was, with a clock reading as
    endTime where the endTime was the empty string and, for a span of kind
    RPC_SERVER, with labels that read, at every key, the default label
    where there is one and what the span had otherwise; the project
    id of the object is overwritten by the enqueue, which happens inside
    [writeSpan] when the project id is known, and when the lookup is answered
    otherwise. *)
Theorem C10_writeSpan_mutates_its_argument (env : Env)
    (config : TraceWriterConfig) (w : World) (t : loc) (tr : Trace) :
  heap w !! t = Some tr →
  ∃ w1 tr1,
    writeSpan env config t w = Some w1 ∧
    heap w1 !! t = Some tr1 ∧
    (∀ t', t' ≠ t → heap w1 !! t' = heap w !! t') ∧
    traceId tr1 = traceId tr ∧
    Forall2
      (fun sp sp1 =>
         startTime sp1 = startTime sp ∧ kind sp1 = kind sp ∧
         name sp1 = name sp ∧ spanId sp1 = spanId sp ∧
         (if decide (endTime sp = EmptyString)
          then ∃ m, (ticks w ≤ m < ticks w1)%nat ∧
                    endTime sp1 = toISOString env m
          else endTime sp1 = endTime sp) ∧
         if decide (kind sp = RPC_SERVER)
         then ∀ k, obj_get k (labels sp1)
                   = match obj_get k (defaultLabels w) with
                     | Some v => Some v
                     | None => obj_get k (labels sp)
                     end
         else labels sp1 = labels sp)
      (spans tr) (spans tr1) ∧
    if decide (this_projectId w = NO_PROJECT_ID_TOKEN)
    then projectId tr1 = projectId tr ∧
         tasks w1 = tasks w ++ [Then Lookup (OnQueueTrace t)] ∧
         ∀ w2 n pid cur,
           tasks w2 !! n = Some (Then Lookup (OnQueueTrace t)) →
           heap w2 !! t = Some cur →
           ∃ w3 tr3, step env config (Run n (Fulfilled pid)) w2 = Some w3 ∧
                     heap w3 !! t = Some tr3 ∧
                     projectId tr3 = pid ∧ traceId tr3 = traceId cur ∧
                     spans tr3 = spans cur
    else projectId tr1 = this_projectId w.
Proof.
intros Ht.
destruct (writeSpan_is_Some env config w t (ltac:(eauto))) as [w1 Hw].
destruct (writeSpan_heap env config w t tr w1 Ht Hw) as [Hh Hticks].
eexists w1, _. split; [exact Hw|].
split; [rewrite Hh; apply lookup_insert_eq|].
split; [intros t' Hne; rewrite Hh; by apply lookup_insert_ne|].
split; [done|]. split.
- simpl. eapply Forall2_impl; [apply prepared_spans|].
  intros sp sp1 (c&(Hl&Hst&Hk&Hn&Hid&He)&->). rewrite Hticks.
  unfold copy_defaults. rewrite Hk.
  destruct (decide (kind sp = RPC_SERVER)) as [Hc|Hc]; simpl;
    rewrite ?Hl; repeat split; try done.
  intros k. destruct (obj_get k (defaultLabels w)) as [v|] eqn:Hk'.
  + by apply Object_assign_source.
  + by apply Object_assign_other.
- destruct (decide (this_projectId w = NO_PROJECT_ID_TOKEN)) as [Hp|Hp];
    [|done].
  split; [done|].
  destruct (writeSpan_deferred env config w t tr Ht Hp)
    as (w1'&Hw'&_&_&_&_&_&_&Hts&_).
  rewrite Hw in Hw'. injection Hw' as <-. split; [done|].
  intros w2 n pid cur Hn Hc.
  rewrite (step_Run _ _ _ _ _ _ Hn). simpl.
  destruct (afterProjectId_spec env config t pid
              (set_this_projectId pid (set_tasks (delete n (tasks w2)) w2))
              cur Hc) as (w3&Hw3&Hh3&_).
  exists w3, (set_projectId pid cur). split; [done|].
  split; [rewrite Hh3; apply lookup_insert_eq | done].
Qed.

Lemma C10_writeSpan_mutates_its_argument_witness :
  heap C10_example.start !! 0%nat = Some C10_example.trace
  ∧ ∃ w1 tr1,
      writeSpan Sample.env C10_example.config 0%nat C10_example.start
      = Some w1
      ∧ heap w1 !! 0%nat = Some tr1
      ∧ traceId tr1 = traceId C10_example.trace
      ∧ projectId tr1 = "0"
      ∧ ∃ sp1, spans tr1 !! 0%nat = Some sp1
               ∧ obj_get "/agent" (labels sp1)
                 = Some "node @google-cloud/trace-agent v2.8.1"
               ∧ obj_get "/http/method" (labels sp1) = Some "GET".
Proof.
assert (heap C10_example.start !! 0%nat = Some C10_example.trace) as H
  by (vm_compute; reflexivity).
split; [exact H|].
destruct (C10_writeSpan_mutates_its_argument
            Sample.env C10_example.config _ _ _ H)
  as (w1&tr1&Hw&Hh&_&Hid&HF&Hp).
exists w1, tr1. split; [exact Hw|]. split; [exact Hh|]. split; [exact Hid|].
rewrite decide_False in Hp by (vm_compute; discriminate).
split; [rewrite Hp; vm_compute; reflexivity|].
destruct (Forall2_lookup_l _ _ _ 0%nat _ HF eq_refl)
  as (sp1&Hsp1&_&_&_&_&_&Hl).
rewrite decide_True in Hl by reflexivity.
exists sp1. split; [exact Hsp1|].
split; rewrite Hl; vm_compute; reflexivity.
Defined.

(** ** Reaching the threshold (claim C3) *)

Section Threshold.
Variable env : Env.
Variable config : TraceWriterConfig.
Hypothesis clock : ∀ m, toISOString env m ≠ EmptyString.

Lemma prepared_settled w tr :
  settled (defaultLabels w) (this_projectId w)
          (set_projectId (this_projectId w) (prepared env w tr)).
Proof.
split; [by apply closed_set_projectId, prepared_closed|].
split; [done|]. simpl. apply Forall_map, Forall_forall.
intros s _. simpl. apply copy_defaults_idemp.
Qed.

Lemma settled_prepared w tr :
  settled (defaultLabels w) (this_projectId w) tr →
  set_projectId (this_projectId w) (prepared env w tr) = tr.
Proof.
intros (Hc&Hp&Hd). unfold prepared.
rewrite (close_spans_fixed env _ _ Hc). simpl.
destruct tr as [p i ss]. simpl in *. subst p.
unfold set_projectId, set_spans. simpl. f_equal.
induction Hd as [|s ss Hs _ IH]; simpl; [done|].
inversion Hc; subst. rewrite Hs, IH; done.
Qed.

(** Writing [ts] one after the other into a buffer that stays below the
    threshold, or reaches it with the last write. *)
Lemma writes_spec (N : nat) ts :
  bufferSize config = Int (Z.of_nat N) →
  ∀ w,
    this_projectId w ≠ NO_PROJECT_ID_TOKEN →
    (∀ t, t ∈ ts → is_Some (heap w !! t)) →
    (length (buffer w) + length ts ≤ N)%nat →
    ∃ w',
      exec env config (map CallWriteSpan ts) w = Some w' ∧
      this_projectId w' = this_projectId w ∧
      defaultLabels w' = defaultLabels w ∧
      requests (effects w') = requests (effects w) ∧
      tasks w'
      = tasks w ++ (if decide (ts ≠ [] ∧ (length (buffer w) + length ts)%nat = N)
                    then [Immediate] else []) ∧
      (∀ t, is_Some (heap w !! t) → is_Some (heap w' !! t)) ∧
      (∀ t tr, heap w !! t = Some tr →
               settled (defaultLabels w) (this_projectId w) tr →
               heap w' !! t = Some tr) ∧
      ∃ new, buffer w' = buffer w ++ new ∧
             Forall2 (fun t entry =>
                        ∃ tr, heap w' !! t = Some tr
                              ∧ entry = JSON_stringify env tr) ts new.
Proof.
intros HN. induction ts as [|t ts IH]; intros w Hp Hin Hlen.
- exists w. rewrite decide_False by (by intros [? _]). simpl.
  rewrite !app_nil_r. repeat split; try done.
  exists []. rewrite app_nil_r. split; [done | constructor].
- simpl in Hlen. destruct (Hin t) as [tr Ht]; [by left|].
  destruct (writeSpan_resolved env config w t tr Ht Hp)
    as (w1&Hw&Hh1&Hb1&Hd1&Hp1&_&_&Hts1&_&He1).
  simpl in Hh1, Hb1.
  destruct (IH w1) as (w'&He&Hp'&Hd'&Hr'&Hts'&Hdom'&Hkeep'&new&Hb'&HF).
  { by rewrite Hp1. }
  { intros t' Hin'. rewrite Hh1.
    destruct (decide (t = t')) as [->|Hne].
    - rewrite lookup_insert_eq. eauto.
    - rewrite lookup_insert_ne by done. apply Hin. by right. }
  { rewrite Hb1, length_app. simpl. lia. }
  exists w'. simpl. rewrite Hw. simpl.
  split; [exact He|]. split; [congruence|]. split; [congruence|].
  assert (length_ge (S (length (buffer w))) (bufferSize config)
          = bool_decide (N ≤ S (length (buffer w)))%nat) as Hge.
  { rewrite HN. simpl. apply bool_decide_ext. lia. }
  assert (heap w' !! t
          = Some (set_projectId (this_projectId w) (prepared env w tr)))
    as Hkept.
  { apply Hkeep'; [rewrite Hh1; apply lookup_insert_eq|].
    rewrite Hd1, Hp1. apply prepared_settled. }
  split.
  { rewrite Hr', He1, requests_app. destruct (length_ge _ _); apply app_nil_r. }
  split.
  { rewrite Hts', Hts1, Hge, Hb1, length_app. cbn [length]. clear -Hlen.
    assert (ts = [] ∨ (0 < length ts)%nat) as Hts0
      by (destruct ts; simpl; [by left | right; lia]).
    case_bool_decide as H1; repeat case_decide;
      rewrite <- ?app_assoc, ?app_nil_r; try done; exfalso;
      destruct_and?;
      try match goal with
          | H : ¬ (_ ∧ _) |- _ =>
              apply H; split; [first [done | intros ->; simpl in *; lia] | lia]
          end;
      destruct Hts0 as [->|?]; simpl in *; done || lia. }
  split.
  { intros t' Hs'. apply Hdom'. rewrite Hh1.
    destruct (decide (t = t')) as [->|Hne].
    - rewrite lookup_insert_eq. eauto.
    - by rewrite lookup_insert_ne. }
  split.
  { intros t' tr' Ht' Hs'. apply Hkeep'; [|by rewrite Hd1, Hp1].
    rewrite Hh1. destruct (decide (t = t')) as [->|Hne].
    - rewrite lookup_insert_eq. f_equal.
      assert (tr' = tr) as -> by congruence. by apply settled_prepared.
    - by rewrite lookup_insert_ne. }
  eexists (_ :: new). split.
  { rewrite Hb', Hb1, <- app_assoc. reflexivity. }
  constructor; [|exact HF]. eexists. split; [exact Hkept | done].
Qed.

End Threshold.

(** C3: let the threshold be [N >= 1] and the writer know its project id and
    hold an empty buffer. Fewer than [N] calls of [writeSpan] in a row make no
    request and schedule nothing (so nothing is published until some other
    trigger, such as the timer, flushes). Exactly [N] calls make no request
    themselves but schedule exactly one immediate flush, with the last call;
    when that immediate runs it makes exactly one request, whose body is the
    JSON object with the [N] entries, in the order of the writes and
    separated by commas, as its [traces] array, the i-th entry being the
    serialization of the i-th written trace object, and leaves the buffer
    empty. *)
Theorem C3_threshold_triggers_one_publish (env : Env)
    (config : TraceWriterConfig) (N : nat) (w : World) (ts : list loc) :
  (∀ m, toISOString env m ≠ EmptyString) →
  (1 ≤ N)%nat →
  bufferSize config = Int (Z.of_nat N) →
  buffer w = [] →
  this_projectId w ≠ NO_PROJECT_ID_TOKEN →
  (∀ t, t ∈ ts → is_Some (heap w !! t)) →
  ((length ts < N)%nat →
   ∃ w', exec env config (map CallWriteSpan ts) w = Some w' ∧
         requests (effects w') = requests (effects w) ∧
         tasks w' = tasks w ∧
         length (buffer w') = length ts) ∧
  (length ts = N →
   ∃ w' w'',
     exec env config (map CallWriteSpan ts) w = Some w' ∧
     requests (effects w') = requests (effects w) ∧
     tasks w' = tasks w ++ [Immediate] ∧
     Forall2 (fun t entry =>
                ∃ tr, heap w' !! t = Some tr ∧ entry = JSON_stringify env tr)
             ts (buffer w') ∧
     step env config (Run (length (tasks w)) Elapsed) w' = Some w'' ∧
     requests (effects w'')
     = requests (effects w)
       ++ ["{" +:+ dquote +:+ "traces" +:+ dquote +:+ ":["
           +:+ String.concat "," (buffer w') +:+ "]}"] ∧
     buffer w'' = []).
Proof.
intros Hclock HN Hsize Hb Hp Hin.
split; intros Hlen.
- destruct (writes_spec env config Hclock N ts Hsize w Hp Hin)
    as (w'&He&_&_&Hr&Hts&_&_&new&Hb'&HF).
  { rewrite Hb. simpl. lia. }
  exists w'. split; [done|]. split; [done|].
  rewrite Hb in Hts, Hb'. simpl in Hts, Hb'.
  rewrite decide_False in Hts by (intros [_ ?]; lia).
  rewrite app_nil_r in Hts. split; [done|].
  rewrite Hb'. symmetry. by eapply Forall2_length.
- destruct (writes_spec env config Hclock N ts Hsize w Hp Hin)
    as (w'&He&_&_&Hr&Hts&_&_&new&Hb'&HF).
  { rewrite Hb. simpl. lia. }
  rewrite Hb in Hts, Hb'. simpl in Hts, Hb'.
  rewrite decide_True in Hts.
  2:{ split; [|done]. intros ->. simpl in *. lia. }
  assert (tasks w' !! length (tasks w) = Some Immediate) as Hn.
  { rewrite Hts. by apply list_lookup_middle. }
  assert (buffer w' ≠ []) as Hne.
  { rewrite Hb'. intros ->. apply Forall2_length in HF. simpl in *. lia. }
  eexists w', _. split; [done|]. split; [done|]. split; [done|].
  split; [by rewrite Hb'|].
  split; [by rewrite (step_Run _ _ _ _ _ _ Hn)|].
  rewrite flushBuffer_requests, flushBuffer_buffer. simpl.
  rewrite decide_False by done. by rewrite Hr, payload_concat.
Qed.

Lemma C3_threshold_triggers_one_publish_witness :
  ∃ w' w'',
    exec Sample.env C3_example.config (map CallWriteSpan (seq 0 5))
         C3_example.start = Some w'
    ∧ step Sample.env C3_example.config
           (Run (length (tasks C3_example.start)) Elapsed) w' = Some w''
    ∧ length (requests (effects w''))
      = S (length (requests (effects C3_example.start)))
    ∧ length (buffer w') = 5%nat
    ∧ requests (effects w'')
      = requests (effects C3_example.start)
        ++ ["{" +:+ dquote +:+ "traces" +:+ dquote +:+ ":["
            +:+ String.concat "," (buffer w') +:+ "]}"]
    ∧ buffer w'
      = map (fun t =>
               Sample.stringify
                 (mkTrace "0" EmptyString
                    [mkSpan [("/agent", "node @google-cloud/trace-agent v2.8.1");
                             ("g.co/gce/hostname", "localhost");
                             ("g.co/gae/app/module", "localhost")]
                            EmptyString (Sample.clock t) RPC_SERVER
                            EmptyString EmptyString]))
            (seq 0 5).
Proof.
assert (∀ m, toISOString Sample.env m ≠ EmptyString) as Hclock
  by (intros m; simpl; discriminate).
assert (this_projectId C3_example.start ≠ NO_PROJECT_ID_TOKEN) as Hp
  by (intros H; vm_compute in H; discriminate).
assert (∀ t, t ∈ seq 0 5 → is_Some (heap C3_example.start !! t)) as Hin.
{ intros t Ht. apply elem_of_seq in Ht.
  do 5 (destruct t as [|t]; [vm_compute; eauto|]). lia. }
destruct (C3_threshold_triggers_one_publish
            Sample.env C3_example.config 5 C3_example.start (seq 0 5)
            Hclock ltac:(lia) eq_refl eq_refl Hp Hin) as [_ H].
destruct (H eq_refl) as (w'&w''&He&_&_&HF&Hs&Hr&_).
exists w', w''. split; [exact He|]. split; [exact Hs|].
split; [rewrite Hr, length_app; simpl; lia|].
split; [symmetry; exact (Forall2_length _ _ _ HF)|].
split; [exact Hr|].
clear -He. vm_compute in He. injection He as <-. vm_compute. reflexivity.
Defined.

(** * Further properties of the writer *)

(** ** Counting and the effects of the building blocks *)

Lemma tally_app {A} (f : A → bool) l1 l2 :
  tally f (l1 ++ l2) = (tally f l1 + tally f l2)%nat.
Proof. induction l1 as [|x l1 IH]; simpl; [done|]. rewrite IH. lia. Qed.

Lemma tally_delete {A} (f : A → bool) l n x :
  l !! n = Some x →
  (tally f (delete n l) + (if f x then 1 else 0))%nat = tally f l.
Proof.
revert n. induction l as [|a l IH]; intros [|n] H; simpl in *; try done.
- injection H as ->. lia.
- specialize (IH n H). lia.
Qed.

Section Logs.
Variable env : Env.
Variable config : TraceWriterConfig.

Lemma flushBuffer_effects w :
  effects (flushBuffer w)
  = effects w
    ++ (if decide (buffer w = []) then []
        else [Log debug ("TraceWriter#flushBuffer: Flushing traces" :: buffer w);
              Log info ["TraceWriter#publish: Publishing to "
                        +:+ traces_uri (this_projectId w)];
              Request "PATCH" (traces_uri (this_projectId w))
                      (payload (buffer w))]).
Proof.
destruct (decide (buffer w = [])) as [H|H].
- by rewrite flushBuffer_empty, app_nil_r.
- by destruct (flushBuffer_nonempty w H) as (_&->&_).
Qed.

Lemma flushBuffer_pendingOperations w :
  pendingOperations (flushBuffer w) = pendingOperations w.
Proof. apply flushBuffer_frame. Qed.

Lemma scheduleFlush_effects w :
  effects (scheduleFlush config w)
  = effects w
    ++ Log info ["TraceWriter#scheduleFlush: Performing periodic flush."]
    :: (if decide (buffer w = []) then []
        else [Log debug ("TraceWriter#flushBuffer: Flushing traces" :: buffer w);
              Log info ["TraceWriter#publish: Publishing to "
                        +:+ traces_uri (this_projectId w)];
              Request "PATCH" (traces_uri (this_projectId w))
                      (payload (buffer w))]).
Proof.
rewrite scheduleFlush_unfold. simpl.
destruct (isActive w); simpl; rewrite flushBuffer_effects; simpl;
  by rewrite <- app_assoc.
Qed.

Lemma scheduleFlush_pendingOperations w :
  pendingOperations (scheduleFlush config w) = pendingOperations w.
Proof.
rewrite scheduleFlush_unfold. simpl.
destruct (isActive w); simpl; by rewrite flushBuffer_pendingOperations.
Qed.

Lemma metadata_warning_effects what err w :
  effects (metadata_warning what err w)
  = effects w
    ++ (if decide (err_code err ≠ "ENOTFOUND")
        then [Log warn ["TraceWriter#" +:+ what;
                        "from the GCP metadata service. Original error: "
                        +:+ err_text err]]
        else []).
Proof.
unfold metadata_warning. destruct (decide _); simpl; [done|].
by rewrite app_nil_r.
Qed.

Lemma metadata_warning_pendingOperations what err w :
  pendingOperations (metadata_warning what err w) = pendingOperations w.
Proof. apply metadata_warning_frame. Qed.

Lemma metadata_warning_defaultLabels what err w :
  defaultLabels (metadata_warning what err w) = defaultLabels w.
Proof. apply metadata_warning_frame. Qed.

Lemma buildDefaultLabels_pendingOperations h i w :
  pendingOperations (buildDefaultLabels env config h i w)
  = pendingOperations w.
Proof. apply buildDefaultLabels_frame. Qed.

End Logs.

Create Rewrite HintDb writer_log.

#[export] Hint Rewrite
  flushBuffer_buffer flushBuffer_isActive flushBuffer_defaultLabels
  flushBuffer_this_projectId flushBuffer_heap flushBuffer_effects
  flushBuffer_tasks flushBuffer_pendingOperations
  scheduleFlush_buffer scheduleFlush_isActive scheduleFlush_defaultLabels
  scheduleFlush_this_projectId scheduleFlush_heap scheduleFlush_effects
  scheduleFlush_tasks scheduleFlush_pendingOperations
  metadata_warning_buffer metadata_warning_isActive
  metadata_warning_this_projectId metadata_warning_heap
  metadata_warning_tasks metadata_warning_effects
  metadata_warning_pendingOperations metadata_warning_defaultLabels
  buildDefaultLabels_buffer buildDefaultLabels_isActive
  buildDefaultLabels_this_projectId buildDefaultLabels_heap
  buildDefaultLabels_tasks buildDefaultLabels_effects
  buildDefaultLabels_pendingOperations
  @tally_app : writer_log.

(** Replace the response callback by the entry it logs. *)
Ltac response_entry :=
  try match goal with
      | |- context [on_response ?e ?s ?w0] =>
          let lvl := fresh "lvl" in
          let rest := fresh "rest" in
          destruct (on_response_effects e s w0) as (lvl&rest&->)
      end.

Section Countdown.

Lemma countdown_spec i w w' :
  countdown i w = Some w' →
  ∃ p, pendingOperations w !! i = Some p ∧
       w' = (if decide (p - 1 = 0) then emit (Callback i None) else id)
              (set_pendingOperations (<[i := p - 1]> (pendingOperations w)) w).
Proof.
unfold countdown. destruct (pendingOperations w !! i) as [p|]; [|done].
simpl. intros [= <-]. exists p. split; [done|]. by destruct (decide _).
Qed.

End Countdown.

(** Case analysis on the event of a step. *)
Ltac step_cases Hs :=
  match type of Hs with
  | step _ _ ?e _ = Some _ =>
      destruct e as [|?t| |?t ?v| |?n ?o]; simpl in Hs;
      [ injection Hs as <-
      | apply writeSpan_inv in Hs as (?tr&?Ht&?Hd&?Hp&?Ha&?Hw)
      | injection Hs as <-
      | injection Hs as <-
      | injection Hs as <-; unfold unhandledException
      | match type of Hs with
        | context [tasks ?w !! ?n] =>
            let task := fresh "task" in
            let Hn := fresh "Hn" in
            destruct (tasks w !! n) as [task|] eqn:Hn; [|done]; simpl in Hs
        end ]
  end.

(** ** Every request is a batch (flushBuffer, publish) *)

Section Batches.
Variable env : Env.
Variable config : TraceWriterConfig.

Lemma published_batches_app es new :
  published_batches es → published_batches new →
  published_batches (es ++ new).
Proof.
intros Hes Hnew i m u b Hi.
destruct (decide (i < length es)%nat) as [Hlt|Hge].
- rewrite lookup_app_l in Hi by done.
  destruct (Hes i m u b Hi) as (Hm&pid&batch&?&?&?&?&H2&H1).
  split; [done|]. exists pid, batch. split_and!; try done.
  + rewrite lookup_app_l by lia. done.
  + rewrite lookup_app_l by lia. done.
- rewrite lookup_app_r in Hi by lia.
  destruct (Hnew _ m u b Hi) as (Hm&pid&batch&?&?&?&?&H2&H1).
  split; [done|]. exists pid, batch. split_and!; try done.
  + lia.
  + rewrite lookup_app_r by lia. rewrite <- H2. f_equal. lia.
  + rewrite lookup_app_r by lia. rewrite <- H1. f_equal. lia.
Qed.

Lemma published_batches_logs new :
  Forall (fun e => is_Request e = false) new → published_batches new.
Proof.
intros H i m u b Hi.
apply (proj1 (Forall_lookup _ _) H) in Hi. done.
Qed.

Lemma published_batches_flush pid batch :
  batch ≠ [] →
  published_batches
    [Log debug ("TraceWriter#flushBuffer: Flushing traces" :: batch);
     Log info ["TraceWriter#publish: Publishing to " +:+ traces_uri pid];
     Request "PATCH" (traces_uri pid) (payload batch)].
Proof.
intros Hne [|[|[|i]]] m u b Hi; simpl in Hi; try done.
injection Hi as <- <- <-. split; [done|].
exists pid, batch. rewrite payload_concat. split_and!; try done.
Qed.

Lemma flushBuffer_published w :
  published_batches (effects w) →
  published_batches (effects (flushBuffer w)).
Proof.
intros H. rewrite flushBuffer_effects. apply published_batches_app; [done|].
case_decide; [by apply published_batches_logs|].
by apply published_batches_flush.
Qed.

Lemma scheduleFlush_published w :
  published_batches (effects w) →
  published_batches (effects (scheduleFlush config w)).
Proof.
intros H. rewrite scheduleFlush_effects.
change (?l ++ ?x :: ?r) with (l ++ [x] ++ r). rewrite app_assoc.
apply published_batches_app.
- apply published_batches_app; [done|].
  apply published_batches_logs. by repeat constructor.
- case_decide; [by apply published_batches_logs|].
  by apply published_batches_flush.
Qed.

End Batches.

(** Effects that extend checked ones by log entries or by a flush. *)
Ltac published_logs :=
  repeat first
    [ assumption
    | apply scheduleFlush_published
    | apply flushBuffer_published
    | apply published_batches_app;
      [| apply published_batches_logs;
         repeat case_decide; try destruct (length_ge _ _);
         by repeat constructor ] ].

Section Batches_steps.
Variable env : Env.
Variable config : TraceWriterConfig.

Lemma step_published e w w' :
  published_batches (effects w) →
  step env config e w = Some w' →
  published_batches (effects w').
Proof.
intros Hinv Hs. step_cases Hs.
- done.
- destruct Hw as [(_&_&_&_&->)|(_&_&_&_&->)]; [done|]. published_logs.
- done.
- done.
- case_decide; [|done]. case_decide; simpl;
    by apply flushBuffer_published.
- run_task_cases Hs;
    try (apply countdown_spec in Hs as (p&_&->));
    try (apply afterProjectId_inv in Hs as (cur&_&_&_&_&_&_&_&->));
    response_entry;
    repeat case_decide; simpl;
    rewrite ?buildDefaultLabels_effects, ?metadata_warning_effects; simpl;
    published_logs.
Qed.
End Batches_steps.

(** X1: every request the writer makes, in any run, is a PATCH to the
    traces address of some project, made right after the debug entry of
    [flushBuffer] that lists the batch it took from the buffer; that batch
    is not empty, so an empty buffer is never published, and the body is the
    JSON object with the entries of the batch, in their order and separated
    by commas, as its [traces] array. *)
Theorem requests_are_nonempty_batches (env : Env)
    (config : TraceWriterConfig) (es : list Event) (w w' : World) :
  published_batches (effects w) →
  exec env config es w = Some w' →
  published_batches (effects w').
Proof.
revert w. induction es as [|e es IH]; intros w Hinv He; simpl in He.
- by injection He as <-.
- destruct (step env config e w) as [w1|] eqn:Hs; [|done]. simpl in He.
  eapply IH; [|exact He]. by eapply step_published.
Qed.

Lemma requests_are_nonempty_batches_witness :
  published_batches (effects Further_example.final)
  ∧ length (requests (effects Further_example.final)) = 2%nat.
Proof.
split; [|vm_compute; reflexivity].
apply (requests_are_nonempty_batches Sample.env Further_example.config
         Further_example.run Further_example.start).
- apply published_batches_logs. constructor.
- vm_compute. reflexivity.
Defined.

(** ** From the buffer to the requests (queueTrace, flushBuffer) *)

Section Delivery.
Variable env : Env.
Variable config : TraceWriterConfig.

(** A step appends the entry it enqueues, or takes the whole buffer into
    one request. *)
Lemma step_delivery e w w' :
  step env config e w = Some w' →
  let new := from_option (fun tr => [JSON_stringify env tr]) []
                         (enqueues env e w) in
  (buffer w' = buffer w ++ new ∧
   requests (effects w') = requests (effects w))
  ∨ (new = [] ∧ buffer w ≠ [] ∧ buffer w' = [] ∧
     requests (effects w') = requests (effects w) ++ [payload (buffer w)]).
Proof.
intros Hs new.
destruct (step_buffer _ _ _ _ _ Hs) as [(more&Hb&Hr&_)|(Hne&Hb&Hr)];
  destruct (step_enqueues _ _ _ _ _ Hs) as [Hq|[Hq Hq']]; subst new.
- left. done.
- left. rewrite Hq. simpl. rewrite app_nil_r. split; [|done].
  rewrite Hq' in Hb. symmetry in Hb. apply app_eq_nil in Hb as [-> _].
  done.
- rewrite Hb in Hq. symmetry in Hq. apply app_eq_nil in Hq as [? _]. done.
- right. by rewrite Hq.
Qed.

End Delivery.

(** X2: nothing is lost, repeated or reordered between the buffer and the
    requests. Over any run the new requests carry batches that are not
    empty, and these batches followed by what is left in the buffer are what
    the buffer held at the start followed by the entries enqueued in the
    run, in the order of their enqueue. *)
Theorem entries_are_sent_once_in_order (env : Env)
    (config : TraceWriterConfig) (es : list Event) (w w' : World) :
  exec env config es w = Some w' →
  ∃ bs : list (list string),
    Forall (fun b => b ≠ []) bs ∧
    requests (effects w') = requests (effects w) ++ map payload bs ∧
    concat bs ++ buffer w' = buffer w ++ enqueued env config es w.
Proof.
revert w. induction es as [|e es IH]; intros w He; simpl in He.
- injection He as <-. exists []. simpl. by rewrite !app_nil_r.
- destruct (step env config e w) as [w1|] eqn:Hs; [|done]. simpl in He.
  destruct (IH _ He) as (bs&Hbs&Hr&Hc). simpl. rewrite Hs.
  destruct (step_delivery _ _ _ _ _ Hs) as [[Hb Hq]|(Hq&Hne&Hb&Hq')].
  + exists bs. split; [done|]. split; [by rewrite Hr, Hq|].
    by rewrite Hc, Hb, <- app_assoc.
  + exists (buffer w :: bs). split; [by constructor|].
    split; [by rewrite Hr, Hq', <- app_assoc|].
    simpl. rewrite Hq. simpl. rewrite <- app_assoc, Hc, Hb. done.
Qed.

Lemma entries_are_sent_once_in_order_witness :
  ∃ bs : list (list string),
    Forall (fun b => b ≠ []) bs ∧
    requests (effects Further_example.final)
    = requests (effects Further_example.start) ++ map payload bs ∧
    concat bs ++ buffer Further_example.final
    = buffer Further_example.start
      ++ enqueued Sample.env Further_example.config Further_example.run
           Further_example.start.
Proof.
apply (entries_are_sent_once_in_order Sample.env Further_example.config
         Further_example.run Further_example.start Further_example.final).
vm_compute. reflexivity.
Defined.

(** ** A project id that is known (getProjectId, queueTrace, publish) *)

(** Lists of tasks and effects that extend ones already checked. *)
Ltac known_lists :=
  rewrite ?Forall_app; split_and?; try done;
  repeat case_decide;
  repeat match goal with
         | |- context [if isActive ?w then _ else _] => destruct (isActive w)
         end;
  repeat (apply Forall_cons; split);
  try apply Forall_nil; try done; try (by intros []).

Section Known.
Variable env : Env.
Variable config : TraceWriterConfig.
Variable pid : string.
Hypothesis Hpid : pid ≠ NO_PROJECT_ID_TOKEN.

(** The writer holds [pid], waits for no lookup, has sent every request to
    the traces of [pid] and has dropped no trace. *)
Local Abbreviation known w :=
  (this_projectId w = pid ∧
   Forall (fun task => ¬ is_lookup task) (tasks w) ∧
   Forall (fun e => goes_to pid e ∧ e ≠ drop_notice) (effects w)).

Lemma flushBuffer_known w : known w → known (flushBuffer w).
Proof.
intros (Hp&Ht&He). autorewrite with writer_log. rewrite Hp.
split; [done|]. split; known_lists.
Qed.

Lemma scheduleFlush_known w : known w → known (scheduleFlush config w).
Proof.
intros (Hp&Ht&He). autorewrite with writer_log. rewrite Hp.
split; [done|]. split; known_lists.
Qed.

Lemma step_known e w w' :
  known w → step env config e w = Some w' → known w'.
Proof.
intros (Hp&Ht&He) Hs. step_cases Hs.
- simpl. split; [done|]. split; [|done].
  unfold getProjectId. simpl. rewrite decide_True by congruence.
  rewrite <- !app_assoc. known_lists.
- destruct Hw as [(Hno&_)|(_&_&_&->&->)]; [congruence|].
  split; [congruence|]. split; destruct (length_ge _ _); known_lists.
- done.
- done.
- case_decide; [|done].
  destruct (flushBuffer_known w) as (?&?&?); [done|].
  case_decide; simpl; split_and!; known_lists.
- assert (¬ is_lookup task) as Hl.
  { eapply (proj1 (Forall_lookup _ _) Ht); eauto. }
  assert (known (set_tasks (delete n (tasks w)) w)) as Hk.
  { simpl. split; [done|]. split; [|done]. by apply Forall_delete. }
  clear Hp Ht He Hn.
  run_task_cases Hs; try (by destruct Hl);
    try (apply countdown_spec in Hs as (p&_&->));
    try (apply afterProjectId_inv in Hs as (cur&_&_&_&_&Hp'&_&Ht'&He'));
    response_entry.
  all: try solve [ destruct (scheduleFlush_known _ Hk) as (?&?&?);
                   case_decide; simpl; split_and!; known_lists ].
  all: try solve [ destruct Hk as (?&?&?); simpl in *; split; [congruence|];
                   rewrite ?Ht', ?He'; split; destruct (length_ge _ _);
                   known_lists ].
  all: try solve [ destruct Hk as (?&?&?); try case_decide; simpl;
                   autorewrite with writer_log; simpl; split_and!;
                   known_lists ].
  all: try (by apply scheduleFlush_known).
  all: try (by apply flushBuffer_known).
Qed.

Lemma exec_known es w w' :
  known w → exec env config es w = Some w' → known w'.
Proof.
revert w. induction es as [|e es IH]; intros w Hk He; simpl in He.
- by injection He as <-.
- destruct (step env config e w) as [w1|] eqn:Hs; [|done]. simpl in He.
  eapply IH; [|exact He]. by eapply step_known.
Qed.

End Known.

(** X3: a writer that knows its project id and waits for no lookup (one
    constructed with a project id is in this state) keeps that id through
    any run: no lookup by the base service is ever started, so the id is
    never overwritten; every request goes to the traces of that project; and
    no trace is dropped for want of a project id. *)
Theorem known_project_id_is_kept (env : Env) (config : TraceWriterConfig)
    (es : list Event) (w w' : World) :
  this_projectId w ≠ NO_PROJECT_ID_TOKEN →
  Forall (fun task => ¬ is_lookup task) (tasks w) →
  Forall (fun e => goes_to (this_projectId w) e ∧ e ≠ drop_notice)
         (effects w) →
  exec env config es w = Some w' →
  this_projectId w' = this_projectId w ∧
  Forall (fun task => ¬ is_lookup task) (tasks w') ∧
  Forall (fun e => goes_to (this_projectId w) e ∧ e ≠ drop_notice)
         (effects w').
Proof.
intros Hp Ht He Hx.
apply (exec_known env config (this_projectId w) Hp es w w'); done.
Qed.

Lemma known_project_id_is_kept_witness :
  this_projectId Further_example.final = "my-project" ∧
  Forall (fun task => ¬ is_lookup task) (tasks Further_example.final) ∧
  Forall (fun e => goes_to "my-project" e ∧ e ≠ drop_notice)
         (effects Further_example.final).
Proof.
apply (known_project_id_is_kept Sample.env Further_example.config
         Further_example.run Further_example.start Further_example.final).
- vm_compute. discriminate.
- constructor.
- constructor.
- vm_compute. reflexivity.
Defined.

(** ** The uncaught exception handler (constructor) *)

(** Counting through the lists a step builds. *)
Ltac tally_simpl :=
  repeat (progress
            (autorewrite with writer_log; simpl in *; repeat case_decide;
             repeat match goal with
                    | |- context [if isActive ?w then _ else _] =>
                        destruct (isActive w)
                    | |- context [length_ge ?n ?b] =>
                        destruct (length_ge n b)
                    end));
  try done; try lia.

Section Exits.
Variable env : Env.
Variable config : TraceWriterConfig.

Lemma step_exits e w w' :
  step env config e w = Some w' →
  exits w'
  = (exits w
     + if decide (onUncaughtException config = "flushAndExit")
       then (if is_UncaughtException e then 1 else 0) else 0)%nat.
Proof.
intros Hs. unfold exits. step_cases Hs.
- tally_simpl.
- destruct Hw as [(_&_&_&->&->)|(_&_&_&->&->)]; tally_simpl.
- tally_simpl.
- tally_simpl.
- destruct (decide (onUncaughtException config = "flushAndExit")) as [Hf|Hf].
  + rewrite decide_True by (rewrite Hf; discriminate). tally_simpl.
  + tally_simpl.
- pose proof (tally_delete is_ExitTimeout _ _ _ Hn) as Hd.
  run_task_cases Hs;
    try (apply countdown_spec in Hs as (p&_&->));
    try (apply afterProjectId_inv in Hs as (cur&_&_&_&_&_&_&Ht'&He');
         rewrite Ht', He');
    response_entry;
    tally_simpl.
Qed.

End Exits.

(** X4: [process.exit] is reached only through the handler of the
    [flushAndExit] policy. Over any run, the exit timers pending plus the
    exits made grow by one for each uncaught exception under that policy,
    and not at all under the other two policies; an exit timer that comes
    due exits with status 1. *)
Theorem exits_follow_the_policy (env : Env) (config : TraceWriterConfig)
    (es : list Event) (w w' : World) :
  exec env config es w = Some w' →
  exits w'
  = (exits w
     + if decide (onUncaughtException config = "flushAndExit")
       then tally is_UncaughtException es else 0)%nat
  ∧ ∀ n ms, tasks w' !! n = Some (ExitTimeout ms) →
      effects <$> step env config (Run n Elapsed) w'
      = Some (effects w' ++ [Exit 1]).
Proof.
intros He. split.
- revert w He. induction es as [|e es IH]; intros w He; simpl in He.
  + injection He as <-. simpl. case_decide; lia.
  + destruct (step env config e w) as [w1|] eqn:Hs; [|done]. simpl in He.
    rewrite (IH _ He), (step_exits _ _ _ _ _ Hs). simpl.
    case_decide; lia.
- intros n ms Hn. simpl. rewrite Hn. done.
Qed.

Lemma exits_follow_the_policy_witness :
  exits Further_example.final = 1%nat.
Proof.
destruct (exits_follow_the_policy Sample.env Further_example.config
            Further_example.run Further_example.start Further_example.final)
  as [H _].
- vm_compute. reflexivity.
- rewrite H. vm_compute. reflexivity.
Defined.

(** ** Requests and their outcome entries (publish) *)

Section Outcomes.
Variable env : Env.
Variable config : TraceWriterConfig.

Lemma prefix_empty s : String.prefix EmptyString s = true.
Proof. by destruct s. Qed.

(** Requests made, less the outcome entries logged, less the responses
    awaited: a step leaves it as it is. *)
Lemma step_outcomes e w w' :
  step env config e w = Some w' →
  (tally is_Request (effects w')
   + tally is_Response (tasks w) + tally is_outcome (effects w))%nat
  = (tally is_Request (effects w)
     + tally is_Response (tasks w') + tally is_outcome (effects w'))%nat.
Proof.
intros Hs. step_cases Hs.
- tally_simpl.
- destruct Hw as [(_&_&_&->&->)|(_&_&_&->&->)]; tally_simpl.
- tally_simpl.
- tally_simpl.
- tally_simpl.
- pose proof (tally_delete is_Response _ _ _ Hn) as Hd.
  run_task_cases Hs;
    try (apply countdown_spec in Hs as (p&_&->));
    try (apply afterProjectId_inv in Hs as (cur&_&_&_&_&_&_&Ht'&He');
         rewrite Ht', He');
    unfold on_response;
    try match goal with
        | |- context [match ?err with Some _ => _ | None => _ end] =>
            destruct err
        end;
    tally_simpl; rewrite prefix_empty; lia.
Qed.

End Outcomes.

(** X5: every request is answered by one outcome entry in the log. In any
    run from a writer in which this holds (one just constructed, for one),
    the requests made are as many as the responses still awaited plus the
    outcome entries logged (the error entry with the status code and the
    original error, or the entry with the status code of a publish that
    went through); nothing else in the writer logs such an entry. *)
Theorem every_response_is_logged_once (env : Env)
    (config : TraceWriterConfig) (es : list Event) (w w' : World) :
  tally is_Request (effects w)
  = (tally is_Response (tasks w) + tally is_outcome (effects w))%nat →
  exec env config es w = Some w' →
  tally is_Request (effects w')
  = (tally is_Response (tasks w') + tally is_outcome (effects w'))%nat.
Proof.
revert w. induction es as [|e es IH]; intros w Hinv He; simpl in He.
- by injection He as <-.
- destruct (step env config e w) as [w1|] eqn:Hs; [|done]. simpl in He.
  apply (IH w1); [|done].
  pose proof (step_outcomes _ _ _ _ _ Hs). lia.
Qed.

Lemma every_response_is_logged_once_witness :
  tally is_Request (effects Further_example.after_round)
  = (tally is_Response (tasks Further_example.after_round)
     + tally is_outcome (effects Further_example.after_round))%nat.
Proof.
apply (every_response_is_logged_once Sample.env Further_example.plain
         Further_example.round Further_example.ready).
- vm_compute. reflexivity.
- vm_compute. reflexivity.
Defined.

(** ** The periodic flush while the writer is active (scheduleFlush) *)

Section Active.
Variable env : Env.
Variable config : TraceWriterConfig.

Lemma run_task_active task o w w' :
  isActive w = true →
  run_task env config task o w = Some w' →
  isActive w' = true ∧
  (pending_timers (tasks w) + (if decide (is_Timeout task) then 1 else 0)
   ≤ pending_timers (tasks w'))%nat.
Proof.
intros Ha Hr. run_task_cases Hr;
  try apply countdown_inv in Hr as (_&_&->&_&_&->&_);
  try apply afterProjectId_inv in Hr as (cur&_&_&_&_&_&->&->&_);
  try destruct (on_response_effects err st w) as (lvl&rest&->);
  try destruct (length_ge _ _);
  writer_simpl; rewrite ?Ha; writer_simpl; split; (done || lia).
Qed.

Lemma step_active e w w' :
  isActive w = true →
  ¬ is_CallStop e →
  step env config e w = Some w' →
  isActive w' = true ∧
  (pending_timers (tasks w) ≤ pending_timers (tasks w'))%nat.
Proof.
intros Ha Hstop Hs. destruct e as [|t| |t v| |n o]; simpl in Hs.
- injection Hs as <-. unfold initialize. writer_simpl. split; [done | lia].
- apply writeSpan_inv in Hs as (tr&_&_&_&->&[(_&_&_&->&_)|(_&_&_&->&_)]);
    try destruct (length_ge _ _); writer_simpl; split; (done || lia).
- by destruct Hstop.
- injection Hs as <-. split; [done | simpl; lia].
- injection Hs as <-. unfold unhandledException.
  writer_simpl; split; (done || lia).
- destruct (tasks w !! n) as [task|] eqn:Hn; [|done].
  simpl in Hs. pose proof (pending_timers_delete _ _ _ Hn) as Hdel.
  apply run_task_active in Hs as [-> Hs]; [|done]. simpl in Hs.
  split; [done | lia].
Qed.

(** A timer that comes due on an active writer. *)
Lemma step_timer n ms w :
  isActive w = true →
  tasks w !! n = Some (Timeout ms) →
  ∃ w', step env config (Run n Elapsed) w = Some w' ∧
        buffer w' = [] ∧ isActive w' = true ∧
        tasks w'
        = delete n (tasks w)
          ++ (if decide (buffer w = []) then [] else [Response])
          ++ [Timeout (flushDelaySeconds config * 1000)] ∧
        requests (effects w')
        = requests (effects w)
          ++ (if decide (buffer w = []) then [] else [payload (buffer w)]).
Proof.
intros Ha Hn. eexists. split; [by rewrite (step_Run _ _ _ _ _ _ Hn)|].
simpl. autorewrite with writer_log. simpl. rewrite !Ha, requests_app.
split_and!; try done. by case_decide.
Qed.

End Active.

(** X6: as long as [stop] is not called, an active writer stays active and
    the timers that run [scheduleFlush] never get fewer: a timer that comes
    due empties the buffer (into one request if it held anything) and arms
    the next timer, [flushDelaySeconds * 1000] ms ahead. *)
Theorem periodic_flush_stays_armed (env : Env) (config : TraceWriterConfig)
    (es : list Event) (w w' : World) :
  isActive w = true →
  Forall (fun e => ¬ is_CallStop e) es →
  exec env config es w = Some w' →
  isActive w' = true ∧
  (pending_timers (tasks w) ≤ pending_timers (tasks w'))%nat ∧
  ∀ n ms, tasks w' !! n = Some (Timeout ms) →
    ∃ w'', step env config (Run n Elapsed) w' = Some w'' ∧
      buffer w'' = [] ∧ isActive w'' = true ∧
      tasks w''
      = delete n (tasks w')
        ++ (if decide (buffer w' = []) then [] else [Response])
        ++ [Timeout (flushDelaySeconds config * 1000)] ∧
      requests (effects w'')
      = requests (effects w')
        ++ (if decide (buffer w' = []) then [] else [payload (buffer w')]).
Proof.
intros Ha Hes He.
assert (isActive w' = true ∧
        (pending_timers (tasks w) ≤ pending_timers (tasks w'))%nat)
  as [Ha' Hle].
{ revert w Ha He. induction Hes as [|e es Hstop Hes IH]; intros w Ha He;
    simpl in He.
  - injection He as <-. split; [done | lia].
  - destruct (step env config e w) as [w1|] eqn:Hs; [|done]. simpl in He.
    destruct (step_active _ _ _ _ _ Ha Hstop Hs) as [Ha1 Hle1].
    destruct (IH _ Ha1 He) as [? ?]. split; [done | lia]. }
split; [done|]. split; [done|].
intros n ms Hn. by apply step_timer with ms.
Qed.

Lemma periodic_flush_stays_armed_witness :
  isActive Further_example.after_round = true ∧
  (pending_timers (tasks Further_example.ready)
   ≤ pending_timers (tasks Further_example.after_round))%nat.
Proof.
destruct (periodic_flush_stays_armed Sample.env Further_example.plain
            Further_example.round Further_example.ready
            Further_example.after_round) as (H1&H2&_).
- vm_compute. reflexivity.
- repeat constructor; simpl; tauto.
- vm_compute. reflexivity.
- split; [exact H1 | exact H2].
Defined.

(** ** The clock readings of writeSpan *)

Section Readings.
Variable env : Env.
Variable config : TraceWriterConfig.

Local Abbreviation is_open := (fun s => bool_decide (endTime s = EmptyString)).

Lemma close_spans_count n ss :
  (close_spans env n ss).2 = (n + tally is_open ss)%nat.
Proof.
revert n. induction ss as [|s ss IH]; intros n; simpl; [lia|].
destruct (decide (endTime s = EmptyString)) as [He|He].
- specialize (IH (S n)). destruct (close_spans env (S n) ss). simpl in *.
  rewrite bool_decide_true by done. lia.
- specialize (IH n). destruct (close_spans env n ss). simpl in *.
  rewrite bool_decide_false by done. lia.
Qed.

Lemma close_spans_lookup n ss i s :
  ss !! i = Some s →
  ∃ s1, (close_spans env n ss).1 !! i = Some s1 ∧
        labels s1 = labels s ∧ kind s1 = kind s ∧
        endTime s1
        = if decide (endTime s = EmptyString)
          then toISOString env (n + tally is_open (take i ss))
          else endTime s.
Proof.
revert n i. induction ss as [|a ss IH]; intros n [|i] H; simpl in *;
  try done.
- injection H as ->. destruct (decide (endTime s = EmptyString)) as [He|He].
  + destruct (close_spans env (S n) ss). simpl. eexists. split; [done|].
    simpl. by rewrite Nat.add_0_r.
  + destruct (close_spans env n ss). simpl. eexists. split; [done|]. done.
- destruct (decide (endTime a = EmptyString)) as [He|He].
  + destruct (IH (S n) i H) as (s1&H1&?&?&H2).
    destruct (close_spans env (S n) ss). simpl in *.
    exists s1. split_and!; try done. rewrite H2.
    rewrite bool_decide_true by done.
    by replace (n + (1 + tally is_open (take i ss)))%nat
      with (S n + tally is_open (take i ss))%nat by lia.
  + destruct (IH n i H) as (s1&H1&?&?&H2).
    destruct (close_spans env n ss). simpl in *.
    exists s1. split_and!; try done. rewrite H2.
    by rewrite bool_decide_false by done.
Qed.

End Readings.

(** X7: [writeSpan] reads the clock once for each span of the trace whose
    [endTime] is the empty string, and not otherwise: the spans are closed
    in their order, the [k]-th open one with the [k]-th reading taken, and a
    span that has an [endTime] keeps it. *)
Theorem writeSpan_reads_the_clock_once_per_open_span (env : Env)
    (config : TraceWriterConfig) (w w1 : World) (t : loc) (tr : Trace) :
  heap w !! t = Some tr →
  writeSpan env config t w = Some w1 →
  ticks w1 = (ticks w + open_spans tr)%nat ∧
  ∃ tr1, heap w1 !! t = Some tr1 ∧
    length (spans tr1) = length (spans tr) ∧
    ∀ i s, spans tr !! i = Some s →
      ∃ s1, spans tr1 !! i = Some s1 ∧
        endTime s1
        = if decide (endTime s = EmptyString)
          then toISOString env
                 (ticks w + open_spans (set_spans (take i (spans tr)) tr))
          else endTime s.
Proof.
intros Ht Hw. destruct (writeSpan_heap env config w t tr w1 Ht Hw) as [Hh Hn].
split; [by rewrite Hn, close_spans_count|].
eexists. split; [by rewrite Hh, lookup_insert_eq|]. simpl.
split.
- rewrite length_map.
  symmetry. apply (Forall2_length _ _ _ (close_spans_stamped env _ _)).
- intros i s Hs.
  destruct (close_spans_lookup env (ticks w) _ _ _ Hs) as (s1&H1&_&_&H2).
  exists (copy_defaults (defaultLabels w) s1).
  rewrite list_lookup_fmap, H1. split; [done|].
  by rewrite copy_defaults_endTime.
Qed.

Lemma writeSpan_reads_the_clock_once_per_open_span_witness :
  ticks Further_example.written = (ticks Further_example.ready + 1)%nat.
Proof.
destruct (writeSpan_reads_the_clock_once_per_open_span
            Sample.env Further_example.plain Further_example.ready
            Further_example.written 0%nat Sample.createDummyTrace)
  as [H _].
- vm_compute. reflexivity.
- vm_compute. reflexivity.
- exact H.
Defined.

(** ** Writing the same trace again *)

Section Again.
Variable env : Env.
Variable config : TraceWriterConfig.
Hypothesis clock : ∀ m, toISOString env m ≠ EmptyString.

(** A trace that has been through the two loops goes through them
    unchanged, whatever the clock says by then. *)
Lemma prepared_again w w1 tr :
  defaultLabels w1 = defaultLabels w →
  prepared env w1 (prepared env w tr) = prepared env w tr
  ∧ (close_spans env (ticks w1) (spans (prepared env w tr))).2 = ticks w1.
Proof.
intros Hd.
assert (Forall closed_span (spans (prepared env w tr))) as Hc
  by by apply prepared_closed.
unfold prepared at 1. rewrite (close_spans_fixed env _ _ Hc). simpl.
split; [|done]. rewrite Hd. unfold prepared, set_spans. simpl. f_equal.
rewrite <- list_fmap_compose. apply list_fmap_ext.
intros i s _. simpl. apply copy_defaults_idemp.
Qed.

End Again.

(** X8: writing a trace object a second time, with no write by the host in
    between, leaves the object as the first write left it and reads no
    clock, but the trace is enqueued again: with a known project id the
    buffer gets the same entry twice, and otherwise a second lookup is
    started for it. (The clock is assumed never to give the empty
    string.) *)
Theorem writeSpan_again_enqueues_again (env : Env)
    (config : TraceWriterConfig) (w w1 w2 : World) (t : loc) :
  (∀ m, toISOString env m ≠ EmptyString) →
  writeSpan env config t w = Some w1 →
  writeSpan env config t w1 = Some w2 →
  heap w2 = heap w1 ∧ ticks w2 = ticks w1 ∧
  (this_projectId w ≠ NO_PROJECT_ID_TOKEN →
   ∃ entry, buffer w1 = buffer w ++ [entry]
            ∧ buffer w2 = buffer w ++ [entry; entry]) ∧
  (this_projectId w = NO_PROJECT_ID_TOKEN →
   buffer w2 = buffer w ∧
   tasks w2 = tasks w ++ [Then Lookup (OnQueueTrace t);
                          Then Lookup (OnQueueTrace t)]).
Proof.
intros Hclock H1 H2.
destruct (writeSpan_inv _ _ _ _ _ H1) as (tr&Ht&Hd&Hp&_&Hc1).
destruct (prepared_again env Hclock w w1 tr Hd) as [Hpr Hti].
destruct Hc1 as [(Hno&Hh1&Hb1&Ht1&_)|(Hyes&Hh1&Hb1&_)].
- assert (heap w1 !! t = Some (prepared env w tr)) as Ht'
    by by rewrite Hh1, lookup_insert_eq.
  destruct (writeSpan_heap env config w1 t _ w2 Ht' H2) as [Hh2 Hn2].
  destruct (writeSpan_inv _ _ _ _ _ H2)
    as (tr'&Ht''&_&_&_&[(_&_&Hb2&Ht2&_)|(Hyes&_)]); [|congruence].
  rewrite decide_True in Hh2 by congruence. rewrite Hpr in Hh2.
  split_and!.
  + rewrite Hh2, Hh1, insert_insert_eq. f_equal.
  + by rewrite Hn2.
  + done.
  + intros _. split; [congruence|]. by rewrite Ht2, Ht1, <- app_assoc.
- set (tr1 := set_projectId (this_projectId w) (prepared env w tr)) in *.
  assert (heap w1 !! t = Some tr1) as Ht'
    by by rewrite Hh1, lookup_insert_eq.
  destruct (writeSpan_heap env config w1 t _ w2 Ht' H2) as [Hh2 Hn2].
  destruct (writeSpan_inv _ _ _ _ _ H2)
    as (tr'&Ht''&_&_&_&[(Hno&_)|(_&Hh2'&Hb2&_)]); [congruence|].
  rewrite Ht' in Ht''. injection Ht'' as <-.
  assert (prepared env w1 tr1 = tr1) as Hfix.
  { unfold tr1, set_projectId. unfold prepared at 1. unfold set_spans.
    simpl. f_equal. exact (f_equal spans Hpr). }
  split_and!.
  + rewrite Hh2', Hfix, Hp, Hh1, insert_insert_eq. done.
  + rewrite Hn2. exact Hti.
  + intros _. eexists. split; [exact Hb1|].
    rewrite Hb2, Hb1, Hfix, Hp, <- app_assoc. done.
  + done.
Qed.

Lemma writeSpan_again_enqueues_again_witness :
  heap Further_example.rewritten = heap Further_example.written ∧
  ticks Further_example.rewritten = ticks Further_example.written.
Proof.
destruct (writeSpan_again_enqueues_again Sample.env Further_example.plain
            Further_example.ready Further_example.written
            Further_example.rewritten 0%nat) as (H1&H2&_).
- intros m. simpl. discriminate.
- vm_compute. reflexivity.
- vm_compute. reflexivity.
- split; [exact H1 | exact H2].
Defined.

(** ** The default labels (initialize, getHostname, getInstanceId) *)

Section Labels.
Variable env : Env.
Variable config : TraceWriterConfig.

Lemma defaultLabels_addDefaultLabel k v w :
  defaultLabels (addDefaultLabel k v w) = obj_set k v (defaultLabels w).
Proof. done. Qed.

Lemma defaultLabels_reset w : defaultLabels (set_defaultLabels [] w) = [].
Proof. done. Qed.

Lemma obj_get_nil k : obj_get k [] = None.
Proof. done. Qed.

End Labels.

(** Read a label off a chain of writes to distinct keys. *)
Ltac read_label :=
  rewrite ?defaultLabels_addDefaultLabel, ?defaultLabels_reset;
  repeat first
    [ rewrite obj_get_set_eq
    | rewrite obj_get_set_ne
        by solve [assumption | apply not_eq_sym; assumption] ];
  rewrite ?obj_get_nil.

(** What each label reads after the labels have been built. *)
Lemma buildDefaultLabels_labels (env : Env) (config : TraceWriterConfig)
    (hostname : string) (instanceId : option string) (w : World) :
  NoDup (label_names env) →
  let d := defaultLabels (buildDefaultLabels env config hostname instanceId w) in
  let L := TraceLabels env in
  let sc := serviceContext config in
  let moduleName := default hostname (truthy (service sc)) in
  obj_get (AGENT_DATA L) d
  = Some ("node " +:+ pjson_name env +:+ " v" +:+ pjson_version env) ∧
  obj_get (GCE_HOSTNAME L) d = Some hostname ∧
  obj_get (GCE_INSTANCE_ID L) d = truthy instanceId ∧
  obj_get (GAE_MODULE_NAME L) d = Some moduleName ∧
  obj_get (GAE_MODULE_VERSION L) d = truthy (version sc) ∧
  obj_get (GAE_VERSION L) d
  = (v ← truthy (version sc);
     m ← truthy (minorVersion sc);
     Some ((if decide (moduleName ≠ "default")
            then moduleName +:+ ":" else EmptyString)
           +:+ v +:+ "." +:+ m)) ∧
  ∀ k, k ∉ label_names env → obj_get k d = None.
Proof.
intros Hnd d L sc moduleName. subst d L sc moduleName.
unfold label_names in *.
repeat match goal with
       | H : NoDup (_ :: _) |- _ =>
           let H1 := fresh "H" in
           apply NoDup_cons in H as [H1 H];
           rewrite ?not_elem_of_cons in H1;
           destruct_and? H1
       end.
unfold buildDefaultLabels.
destruct (truthy instanceId) as [id|];
  destruct (truthy (version (serviceContext config))) as [v|];
  destruct (truthy (minorVersion (serviceContext config))) as [m|];
  cbn [mbind option_bind];
  (split_and!;
   [ by read_label | by read_label | by read_label | by read_label
   | by read_label | by read_label
   | intros k Hk; rewrite ?not_elem_of_cons in Hk; destruct_and? Hk;
     by read_label ]).
Qed.


(** X9: the labels [initialize] builds once the metadata queries have
    answered, when the six label names are distinct. The old labels are
    discarded; the agent, host name and module name labels are always set,
    the module name being the configured service or else the host name; the
    instance id label is set only for a truthy instance id and the module
    version label only for a truthy configured version; the version label
    needs both a version and a minor version and carries the module name as
    a prefix unless that name is [default]; no other label is set. *)
Theorem default_labels_are_built_afresh (env : Env)
    (config : TraceWriterConfig) (hostname : string)
    (instanceId : option string) (w : World) :
  NoDup (label_names env) →
  let d := defaultLabels (buildDefaultLabels env config hostname instanceId w) in
  let L := TraceLabels env in
  let sc := serviceContext config in
  let moduleName := default hostname (truthy (service sc)) in
  obj_get (AGENT_DATA L) d
  = Some ("node " +:+ pjson_name env +:+ " v" +:+ pjson_version env) ∧
  obj_get (GCE_HOSTNAME L) d = Some hostname ∧
  obj_get (GCE_INSTANCE_ID L) d = truthy instanceId ∧
  obj_get (GAE_MODULE_NAME L) d = Some moduleName ∧
  obj_get (GAE_MODULE_VERSION L) d = truthy (version sc) ∧
  obj_get (GAE_VERSION L) d
  = (v ← truthy (version sc);
     m ← truthy (minorVersion sc);
     Some ((if decide (moduleName ≠ "default")
            then moduleName +:+ ":" else EmptyString)
           +:+ v +:+ "." +:+ m)) ∧
  ∀ k, k ∉ label_names env → obj_get k d = None.
Proof. apply buildDefaultLabels_labels. Qed.

Lemma default_labels_are_built_afresh_witness :
  obj_get "g.co/gae/app/version"
          (defaultLabels
             (buildDefaultLabels Sample.env Further_example.config
                "my-hostname" (Some "17") Further_example.start))
  = Some "foo:bar.baz".
Proof.
destruct (default_labels_are_built_afresh Sample.env Further_example.config
            "my-hostname" (Some "17") Further_example.start)
  as (_&_&_&_&_&H&_).
- apply (bool_decide_unpack _). vm_compute. exact I.
- exact H.
Defined.

Section Fallback.
Variable env : Env.
Variable config : TraceWriterConfig.

Lemma countdown_Some i p w :
  pendingOperations w !! i = Some p →
  countdown i w
  = Some ((if decide (p - 1 = 0) then emit (Callback i None) else id)
            (set_pendingOperations (<[i := p - 1]> (pendingOperations w)) w)).
Proof.
intros H. unfold countdown. rewrite H. simpl. by destruct (decide _).
Qed.

(** The instance id query that follows the host name query is the last of
    the pending tasks. *)
Lemma step_GetHostname n i o hostname w w1 :
  tasks w !! n = Some (GetHostname i) →
  step env config (Run n o) w = Some w1 →
  tasks w1 = delete n (tasks w) ++ [GetInstanceId i hostname] →
  tasks w1 !! (length (tasks w) - 1)%nat = Some (GetInstanceId i hostname)
  ∧ delete (length (tasks w) - 1)%nat (tasks w1) = delete n (tasks w).
Proof.
intros Hn _ Ht.
assert (length (delete n (tasks w)) = (length (tasks w) - 1)%nat) as Hlen
  by (apply length_delete; eauto).
rewrite Ht, <- Hlen. split.
- by apply list_lookup_middle.
- by rewrite delete_middle, app_nil_r.
Qed.

End Fallback.

(** X10: without a metadata server. When the host name query of a call of
    [initialize] is rejected, the instance id query is made all the same,
    and when that one is rejected too the labels are built with the host
    name of the operating system and without an instance id. Each rejection
    is logged as a warning unless its code is [ENOTFOUND]; the callback of
    that call is invoked, with no error, if this was its last pending
    operation. *)
Theorem labels_without_metadata_server (env : Env)
    (config : TraceWriterConfig) (w : World) (n i : nat) (p : Z)
    (e1 e2 : Error) :
  NoDup (label_names env) →
  tasks w !! n = Some (GetHostname i) →
  pendingOperations w !! i = Some p →
  ∃ w2,
    exec env config
      [Run n (Rejected e1); Run (length (tasks w) - 1) (Rejected e2)] w
    = Some w2 ∧
    obj_get (GCE_HOSTNAME (TraceLabels env)) (defaultLabels w2)
    = Some (os_hostname env) ∧
    obj_get (GCE_INSTANCE_ID (TraceLabels env)) (defaultLabels w2) = None ∧
    obj_get (GAE_MODULE_NAME (TraceLabels env)) (defaultLabels w2)
    = Some (default (os_hostname env)
                    (truthy (service (serviceContext config)))) ∧
    tasks w2 = delete n (tasks w) ∧
    pendingOperations w2 = <[i := p - 1]> (pendingOperations w) ∧
    effects w2
    = effects w
      ++ (if decide (err_code e1 ≠ "ENOTFOUND")
          then [Log warn ["TraceWriter#getHostname: Unable to retrieve GCE hostname";
                          "from the GCP metadata service. Original error: "
                          +:+ err_text e1]]
          else [])
      ++ (if decide (err_code e2 ≠ "ENOTFOUND")
          then [Log warn ["TraceWriter#getInstanceId: Unable to retrieve GCE instance ID";
                          "from the GCP metadata service. Original error: "
                          +:+ err_text e2]]
          else [])
      ++ (if decide (p - 1 = 0) then [Callback i None] else []).
Proof.
intros Hnd Hn Hp.
pose (w1 := spawn (GetInstanceId i (os_hostname env))
              (metadata_warning "getHostname: Unable to retrieve GCE hostname"
                 e1 (set_tasks (delete n (tasks w)) w))).
assert (step env config (Run n (Rejected e1)) w = Some w1) as Hs1
  by by rewrite (step_Run _ _ _ _ _ _ Hn).
assert (tasks w1 = delete n (tasks w) ++ [GetInstanceId i (os_hostname env)])
  as Ht1 by (subst w1; simpl; by autorewrite with writer_log).
destruct (step_GetHostname env config _ _ _ _ _ _ Hn Hs1 Ht1) as [Hn1 Hd1].
pose (w1' := metadata_warning
               "getInstanceId: Unable to retrieve GCE instance ID" e2
               (set_tasks (delete (length (tasks w) - 1)%nat (tasks w1)) w1)).
assert (pendingOperations
          (buildDefaultLabels env config (os_hostname env) None w1') !! i
        = Some p) as Hp1.
{ subst w1' w1. autorewrite with writer_log. simpl.
  by autorewrite with writer_log. }
cbn [exec]. rewrite Hs1. cbn [mbind option_bind].
rewrite (step_Run _ _ _ _ _ _ Hn1). cbn [mbind option_bind run_task].
unfold labels_ready. fold w1'. rewrite (countdown_Some _ _ _ Hp1).
eexists. split; [reflexivity|].
destruct (buildDefaultLabels_labels env config (os_hostname env) None w1' Hnd)
  as (_&Hh&Hi&Hm&_).
assert (∀ (c : bool) x,
          defaultLabels ((if c then emit (Callback i None) else id) x)
          = defaultLabels x) as Hdl by (by intros []).
split_and!.
- by destruct (decide (p - 1 = 0)).
- by destruct (decide (p - 1 = 0)).
- by destruct (decide (p - 1 = 0)).
- destruct (decide (p - 1 = 0)); simpl; autorewrite with writer_log;
    subst w1'; autorewrite with writer_log; simpl; done.
- destruct (decide (p - 1 = 0)); simpl; autorewrite with writer_log;
    subst w1' w1; autorewrite with writer_log; simpl;
    by autorewrite with writer_log.
- destruct (decide (p - 1 = 0)); simpl; autorewrite with writer_log;
    subst w1' w1; autorewrite with writer_log; simpl;
    autorewrite with writer_log; by rewrite <- ?app_assoc, ?app_nil_r.
Qed.

Lemma labels_without_metadata_server_witness :
  ∃ w2,
    exec Sample.env Further_example.plain
      [Run 1 (Rejected Sample.not_found); Run 1 (Rejected Sample.failure)]
      Further_example.querying
    = Some w2 ∧
    obj_get "g.co/gce/hostname" (defaultLabels w2) = Some "localhost" ∧
    obj_get "g.co/gce/instanceid" (defaultLabels w2) = None ∧
    length (effects w2) = 1%nat.
Proof.
destruct (labels_without_metadata_server Sample.env Further_example.plain
            Further_example.querying 1 0 2 Sample.not_found Sample.failure)
  as (w2&He&Hh&Hi&_&_&_&Hf).
- apply (bool_decide_unpack _). vm_compute. exact I.
- vm_compute. reflexivity.
- vm_compute. reflexivity.
- exists w2. split; [exact He|]. split; [exact Hh|]. split; [exact Hi|].
  rewrite Hf. vm_compute. reflexivity.
Defined.

(** ** The callback of initialize *)

Lemma lookup_snoc_ne {A} (l : list A) (x : A) (i : nat) :
  i ≠ length l → (l ++ [x]) !! i = l !! i.
Proof.
intros H. destruct (decide (i < length l)%nat).
- by rewrite lookup_app_l.
- rewrite lookup_app_r by lia. rewrite (lookup_ge_None_2 l) by lia.
  destruct (i - length l)%nat eqn:E; [lia | done].
Qed.

Section Callbacks.
Variable env : Env.
Variable config : TraceWriterConfig.

Lemma writeSpan_pendingOperations t w w' :
  writeSpan env config t w = Some w' →
  pendingOperations w' = pendingOperations w.
Proof.
intros H. destruct (writeSpan_Some_inv _ _ _ _ _ H) as [tr Ht].
destruct (decide (this_projectId w = NO_PROJECT_ID_TOKEN)) as [Hp|Hp].
- destruct (writeSpan_deferred env config w t tr Ht Hp)
    as (w1&Hw&_&_&_&_&_&_&_&?&_). congruence.
- destruct (writeSpan_resolved env config w t tr Ht Hp)
    as (w1&Hw&_&_&_&_&_&_&_&?&_). congruence.
Qed.

(** The counter, tasks and callbacks of call [i] after the countdown of
    call [j]. *)
Lemma countdown_state i j w w' :
  countdown j w = Some w' →
  ∃ p, pendingOperations w !! j = Some p ∧
    tasks w' = tasks w ∧
    pendingOperations w' !! i
    = (if decide (j = i) then Some (p - 1) else pendingOperations w !! i) ∧
    tally (is_callback i) (effects w')
    = (tally (is_callback i) (effects w)
       + if decide (j = i) then (if decide (p - 1 = 0)%Z then 1 else 0) else 0)%nat.
Proof.
intros (p&Hp&->)%countdown_spec. exists p. split; [done|].
assert (j < length (pendingOperations w))%nat as Hlt
  by (apply lookup_lt_is_Some; eauto).
destruct (decide (p - 1 = 0)); simpl; (split; [done|]); split.
- case_decide; [subst; by rewrite list_lookup_insert_eq
               | by rewrite list_lookup_insert_ne].
- rewrite tally_app. simpl. case_decide.
  + by rewrite bool_decide_true.
  + rewrite bool_decide_false by done. lia.
- case_decide; [subst; by rewrite list_lookup_insert_eq
               | by rewrite list_lookup_insert_ne].
- case_decide; lia.
Qed.

Lemma afterProjectId_pendingOperations t pid w w' :
  afterProjectId env config t pid w = Some w' →
  pendingOperations w' = pendingOperations w.
Proof.
intros H. destruct (afterProjectId_Some_inv _ _ _ _ _ _ H) as [cur Hc].
destruct (afterProjectId_spec env config t pid w cur Hc)
  as (w1&Hw&_&_&_&_&_&_&?&_). congruence.
Qed.

Lemma step_initialize_state e w w' i :
  initialize_state w i →
  step env config e w = Some w' →
  initialize_state w' i.
Proof.
unfold initialize_state. intros Hi Hs.
destruct e as [|t| |t v| |n o]; simpl in Hs.
- injection Hs as <-. simpl. rewrite !tally_app. simpl.
  destruct (decide (i = length (pendingOperations w))) as [->|Hne].
  + rewrite list_lookup_middle by done.
    rewrite (lookup_ge_None_2 (pendingOperations w)) in Hi by lia.
    rewrite !bool_decide_true by done. simpl in *. lia.
  + rewrite lookup_snoc_ne by done.
    rewrite !bool_decide_false by done.
    destruct (pendingOperations w !! i); simpl in *; lia.
- rewrite (writeSpan_pendingOperations _ _ _ Hs).
  apply writeSpan_inv in Hs
    as (tr&_&_&_&_&[(_&_&_&->&->)|(_&_&_&->&->)]);
    tally_simpl; rewrite ?Nat.add_0_r; done.
- by injection Hs as <-.
- by injection Hs as <-.
- injection Hs as <-. unfold unhandledException.
  tally_simpl; rewrite ?Nat.add_0_r; done.
- destruct (tasks w !! n) as [task|] eqn:Hn; [|done]. simpl in Hs.
  pose proof (tally_delete (is_init_lookup i) _ _ _ Hn) as Hda.
  pose proof (tally_delete (is_init_metadata i) _ _ _ Hn) as Hdb.
  run_task_cases Hs;
    try (apply (countdown_state i) in Hs as (p&Hp&Ht&Hpo&Hc);
         rewrite Ht, Hpo, Hc; clear Ht Hpo Hc;
         autorewrite with writer_log in Hp; simpl in Hp);
    try (rewrite (afterProjectId_pendingOperations _ _ _ _ Hs);
         apply afterProjectId_inv in Hs as (cur&_&_&_&_&_&_&Ht'&He');
         rewrite Ht', He'; clear Ht' He');
    unfold on_response;
    try match goal with
        | |- context [match ?err with Some _ => _ | None => _ end] =>
            destruct err
        end;
    tally_simpl;
    subst;
    repeat match goal with
           | H : ?x = Some _, Hi : context [?x] |- _ => rewrite H in Hi
           end;
    unfold counts_agree in *;
    try (destruct (pendingOperations _ !! _));
    try lia.
Qed.

(** Each call of [initialize] has its own counter. *)
Lemma step_calls e w w' :
  step env config e w = Some w' →
  length (pendingOperations w')
  = (length (pendingOperations w) + if is_CallInitialize e then 1 else 0)%nat.
Proof.
intros Hs. destruct e as [|t| |t v| |n o]; simpl in Hs.
- injection Hs as <-. simpl. by rewrite length_app.
- rewrite (writeSpan_pendingOperations _ _ _ Hs). simpl. lia.
- injection Hs as <-. simpl. lia.
- injection Hs as <-. simpl. lia.
- injection Hs as <-. unfold unhandledException. tally_simpl.
- destruct (tasks w !! n) as [task|] eqn:Hn; [|done]. simpl in Hs.
  run_task_cases Hs;
    try (apply countdown_spec in Hs as (p&_&->));
    try (rewrite (afterProjectId_pendingOperations _ _ _ _ Hs));
    unfold on_response;
    try match goal with
        | |- context [match ?err with Some _ => _ | None => _ end] =>
            destruct err
        end;
    tally_simpl; rewrite ?length_insert; tally_simpl.
Qed.

Lemma exec_initialize_state es w w' :
  (∀ i, initialize_state w i) →
  exec env config es w = Some w' →
  (∀ i, initialize_state w' i) ∧
  length (pendingOperations w')
  = (length (pendingOperations w) + tally is_CallInitialize es)%nat.
Proof.
revert w. induction es as [|e es IH]; intros w Hinv He; simpl in He.
- injection He as <-. split; [done | simpl; lia].
- destruct (step env config e w) as [w1|] eqn:Hs; [|done]. simpl in He.
  destruct (IH w1) as [H1 H2]; [|done|].
  + intros i. by apply (step_initialize_state e w).
  + split; [done|]. rewrite H2, (step_calls _ _ _ Hs). simpl. lia.
Qed.

End Callbacks.

(** X11: the callback of [initialize] is called once. In any run of a
    writer from its construction, the [i]-th call of [initialize] (there are
    as many as the run has calls) has had its callback invoked at most once,
    and exactly once when neither its reaction on the project id nor its
    metadata query is pending any more; a callback is never invoked for a
    call that was not made. *)
Theorem initialize_calls_back_once (env : Env) (config : TraceWriterConfig)
    (h : gmap loc Trace) (es : list Event) (w' : World) (i : nat) :
  exec env config es (fresh config h) = Some w' →
  (tally (is_callback i) (effects w') ≤ 1)%nat ∧
  ((i < tally is_CallInitialize es)%nat →
   tally (is_init_lookup i) (tasks w') = 0%nat →
   tally (is_init_metadata i) (tasks w') = 0%nat →
   tally (is_callback i) (effects w') = 1%nat) ∧
  ((tally is_CallInitialize es ≤ i)%nat →
   tally (is_callback i) (effects w') = 0%nat).
Proof.
intros He.
destruct (exec_initialize_state env config es (fresh config h) w')
  as [Hinv Hlen]; [|done|].
{ intros j. unfold initialize_state. simpl. done. }
simpl in Hlen. specialize (Hinv i). unfold initialize_state in Hinv.
destruct (pendingOperations w' !! i) as [p|] eqn:Hp.
- apply lookup_lt_Some in Hp. unfold counts_agree in Hinv. lia.
- apply lookup_ge_None in Hp. unfold counts_agree in Hinv. lia.
Qed.

Lemma initialize_calls_back_once_witness :
  tally (is_callback 0) (effects Further_example.final) = 1%nat.
Proof.
destruct (initialize_calls_back_once Sample.env Further_example.config
            Further_example.heap0 Further_example.run Further_example.final
            0%nat) as (_&H&_).
- vm_compute. reflexivity.
- apply H; vm_compute; (reflexivity || lia).
Defined.

(** * Properties of the http plugin *)

Section PluginProperties.
Import PluginHttp.
Variable globalAgent : Agent.
Variable TRACE_AGENT_REQUEST_HEADER : string.
Variable url_parse : string → RequestOptions.
Variable createChildSpan : string → bool.

Lemma truthy_Some o s : truthy o = Some s → o = Some s ∧ s ≠ EmptyString.
Proof.
destruct o as [x|]; simpl; [|done]. case_decide; [done|]. by intros [= ->].
Qed.


Lemma or_string_nonempty a b : b ≠ EmptyString → or_string a b ≠ EmptyString.
Proof.
intros Hb. unfold or_string. destruct (truthy a) as [s|] eqn:H; simpl; [|done].
by apply truthy_Some in H as [_ ?].
Qed.

Lemma append_nonempty a b : b ≠ EmptyString → a +:+ b ≠ EmptyString.
Proof. destruct a, b; simpl; done. Qed.

Lemma getSpanName_nonempty o : getSpanName o ≠ EmptyString.
Proof. by apply or_string_nonempty. Qed.

Lemma extractUrl_nonempty o : extractUrl globalAgent (Obj o) ≠ EmptyString.
Proof. simpl. by apply append_nonempty. Qed.

End PluginProperties.


(** X13: what [request_trace] gives to a request it traces. Such a request
    is not one of the agent's own and was given a span; the span is named
    after the host and so has a name; the URL label is not empty: for a URL
    string it is that string as it was passed, with the options parsed from
    it handed on, and for an options object it is the URL [extractUrl]
    composes; the method label is the [method] option. *)
Theorem traced_requests_are_named_and_labelled
    (globalAgent : PluginHttp.Agent) (TRACE_AGENT_REQUEST_HEADER : string)
    (url_parse : string → PluginHttp.RequestOptions)
    (createChildSpan : string → bool)
    (options : option PluginHttp.Options) (name : string)
    (http_method : option string) (http_url : string)
    (o : PluginHttp.RequestOptions) :
  PluginHttp.request_trace globalAgent TRACE_AGENT_REQUEST_HEADER url_parse
    createChildSpan options
  = PluginHttp.Traced name http_method http_url o →
  PluginHttp.isTraceAgentRequest TRACE_AGENT_REQUEST_HEADER options = false ∧
  createChildSpan name = true ∧
  name = PluginHttp.getSpanName o ∧ name ≠ EmptyString ∧
  http_method = PluginHttp.method o ∧ http_url ≠ EmptyString ∧
  match options with
  | Some (PluginHttp.Uri s) => http_url = s ∧ o = url_parse s
  | Some (PluginHttp.Obj o') =>
      o = o' ∧ http_url = PluginHttp.extractUrl globalAgent (PluginHttp.Obj o')
  | None => False
  end.
Proof.
unfold PluginHttp.request_trace.
destruct options as [[s|o']|]; [| |done].
- destruct s as [|c s]; [done|].
  destruct (PluginHttp.isTraceAgentRequest _ _) eqn:Ha; [done|].
  destruct (createChildSpan _) eqn:Hc; [|done].
  intros [= <- <- <- <-]. split_and!; try done.
  apply getSpanName_nonempty.
- destruct (PluginHttp.isTraceAgentRequest _ _) eqn:Ha; [done|].
  destruct (createChildSpan _) eqn:Hc; [|done].
  intros [= <- <- <- <-]. split_and!; try done.
  + apply getSpanName_nonempty.
  + apply extractUrl_nonempty.
Qed.

Lemma traced_requests_are_named_and_labelled_witness :
  PluginHttp.request_trace PluginHttp.http_agent PluginHttp.agent_header
    (fun _ => PluginHttp.metadata_request) (fun _ => true)
    (Some (PluginHttp.Obj PluginHttp.metadata_request))
  = PluginHttp.Traced "metadata.google.internal" (Some "GET")
      "http://metadata.google.internal:80/computeMetadata/v1/project"
      PluginHttp.metadata_request
  ∧ "metadata.google.internal" ≠ EmptyString.
Proof.
assert (PluginHttp.request_trace PluginHttp.http_agent
          PluginHttp.agent_header
          (fun _ => PluginHttp.metadata_request) (fun _ => true)
          (Some (PluginHttp.Obj PluginHttp.metadata_request))
        = PluginHttp.Traced "metadata.google.internal" (Some "GET")
            "http://metadata.google.internal:80/computeMetadata/v1/project"
            PluginHttp.metadata_request) as H
  by (vm_compute; reflexivity).
split; [exact H|].
exact (proj1 (proj2 (proj2 (proj2
         (traced_requests_are_named_and_labelled _ _ _ _ _ _ _ _ _ H))))).
Defined.



(** * Further properties of the writer, continued *)

(** X15: the constructor accepts the three policies for uncaught
    exceptions and no other value. A writer it returns is active, holds no
    entries and no labels and has nothing pending and nothing logged; for
    any other value it logs one error that names the value and throws. *)
Theorem constructor_checks_the_policy (config : TraceWriterConfig)
    (h : gmap loc Trace) :
  (∀ w, constructor config h = inr w →
     (onUncaughtException config = "ignore"
      ∨ onUncaughtException config = "flush"
      ∨ onUncaughtException config = "flushAndExit") ∧
     isActive w = true ∧ buffer w = [] ∧ defaultLabels w = [] ∧
     tasks w = [] ∧ pendingOperations w = [] ∧ effects w = [] ∧
     heap w = h) ∧
  (∀ e msg, constructor config h = inl (e, msg) →
     onUncaughtException config ≠ "ignore" ∧
     onUncaughtException config ≠ "flush" ∧
     onUncaughtException config ≠ "flushAndExit" ∧
     e = Log error
           ["TraceWriter#constructor: The value of config.onUncaughtException ["
            +:+ onUncaughtException config
            +:+ "] should be one of [ignore, flush, flushAndExit]."] ∧
     msg = "Invalid value for onUncaughtException configuration.").
Proof.
unfold constructor, onUncaughtExceptionValues. split.
- intros w. case_decide as Hin; [|done]. intros [= <-].
  rewrite !elem_of_cons, elem_of_nil in Hin. split; [tauto | done].
- intros e msg. case_decide as Hin; [done|]. intros [= <- <-].
  rewrite !elem_of_cons, elem_of_nil in Hin. split_and!; try done; tauto.
Qed.

Lemma constructor_checks_the_policy_witness :
  isActive (fresh Further_example.config Further_example.heap0) = true
  ∧ (onUncaughtException Further_example.config = "ignore"
     ∨ onUncaughtException Further_example.config = "flush"
     ∨ onUncaughtException Further_example.config = "flushAndExit").
Proof.
destruct (constructor_checks_the_policy Further_example.config
            Further_example.heap0) as [H _].
destruct (H (fresh Further_example.config Further_example.heap0))
  as (H1&H2&_).
- vm_compute. reflexivity.
- split; [exact H2 | exact H1].
Defined.

(** ** Requests come from flushes only *)

Section Flushes.
Variable env : Env.
Variable config : TraceWriterConfig.

Lemma step_flushes e w w' :
  step env config e w = Some w' →
  (length (requests (effects w'))
   ≤ length (requests (effects w)) + if flushes e w then 1 else 0)%nat.
Proof.
intros Hs. unfold flushes. step_cases Hs.
- simpl. lia.
- destruct Hw as [(_&_&_&_&->)|(_&_&_&_&->)]; [lia|].
  rewrite requests_app. destruct (length_ge _ _); simpl;
    rewrite length_app; simpl; lia.
- simpl. lia.
- simpl. lia.
- repeat case_decide; simpl; autorewrite with writer;
    repeat case_decide; rewrite ?length_app; simpl; lia.
- run_task_cases Hs;
    try (rewrite (countdown_requests _ _ _ Hs));
    try (apply afterProjectId_inv in Hs as (cur&_&_&_&_&_&_&_&->));
    response_entry; simpl; rewrite ?requests_app; simpl;
    autorewrite with writer; simpl;
    repeat case_decide; try destruct (length_ge _ _);
    rewrite ?requests_app, ?length_app; simpl; lia.
Qed.

End Flushes.

(** X16: only a flush makes a request, and it makes at most one. Over any
    run the requests grow by no more than the number of steps that run
    [flushBuffer] (the handler of uncaught exceptions, a timer or an
    immediate coming due, the project id arriving for [initialize]): calls
    of [initialize], [writeSpan] and [stop], the metadata queries, the
    answers to lookups for written traces and the responses to requests
    make none. *)
Theorem requests_come_from_flushes (env : Env) (config : TraceWriterConfig)
    (es : list Event) (w w' : World) :
  exec env config es w = Some w' →
  (length (requests (effects w'))
   ≤ length (requests (effects w)) + flushing env config es w)%nat.
Proof.
revert w. induction es as [|e es IH]; intros w He; simpl in He.
- injection He as <-. simpl. lia.
- destruct (step env config e w) as [w1|] eqn:Hs; [|done]. simpl in He.
  specialize (IH _ He). pose proof (step_flushes _ _ _ _ _ Hs).
  simpl. rewrite Hs. lia.
Qed.

Lemma requests_come_from_flushes_witness :
  (length (requests (effects Further_example.final))
   ≤ length (requests (effects Further_example.start))
     + flushing Sample.env Further_example.config Further_example.run
         Further_example.start)%nat.
Proof.
apply (requests_come_from_flushes Sample.env Further_example.config
         Further_example.run Further_example.start Further_example.final).
vm_compute. reflexivity.
Defined.

(** ** The project id of the buffered traces (queueTrace) *)

Section Carries.
Variable env : Env.
Variable config : TraceWriterConfig.
Variable pid : string.
Hypothesis Hpid : pid ≠ NO_PROJECT_ID_TOKEN.




End Carries.


